(** * FluxStore: the image carousel and the product grid controller

    A shallow embedding of [src/components/Gallery.jsx] and of the
    product grid component ([ProductGridContent]), together with the part
    of the JavaScript runtime the two components lean on: IEEE-754
    numbers with [Number(...)] coercion and number printing, and
    [URLSearchParams] with its form-urlencoded wire format. *)

From Stdlib Require Import ZArith NArith Bool List Ascii String Lia.
From Stdlib Require Import DecimalString DecimalPos.
From Stdlib Require Import Floats.SpecFloat.
From stdpp Require Import base option list strings gmap.

Local Open Scope Z_scope.

(** ** JavaScript numbers

    A JavaScript number is an IEEE-754 binary64 value.  It is
    represented by the Standard Library's [spec_float] (sign, mantissa,
    exponent, the two zeros, the two infinities and one NaN); every value
    built here goes through [binary_round_aux] and is therefore in
    canonical form, so that equality of numbers is equality of terms
    (except that NaN is never equal to itself in JavaScript, which no
    definition below relies on). *)
Module JS.

Definition number : Type := spec_float.

Definition prec : Z := 53.
Definition emax : Z := 1024.

Definition NaN : number := S754_nan.
Definition Infinity (neg : bool) : number := S754_infinity neg.

(** The binary64 value nearest to the rational [n / d], ties to even. *)
Definition of_ratio (neg : bool) (n d : positive) : number :=
  let '(q, e, l) := SFdiv_core_binary prec emax (Zpos n) 0 (Zpos d) 0 in
  binary_round_aux prec emax neg q e l.

(** The binary64 value nearest to [m * 10 ^ e]. *)
Definition of_decimal (neg : bool) (m : N) (e : Z) : number :=
  match m with
  | N0 => S754_zero neg
  | Npos p =>
      if 0 <=? e then of_ratio neg (Z.to_pos (Zpos p * 10 ^ e)) 1
      else of_ratio neg p (Z.to_pos (10 ^ (- e)))
  end.

Definition of_Z (z : Z) : number :=
  of_decimal (z <? 0) (Z.abs_N z) 0.

(** [ToBoolean] on numbers: [NaN], [+0] and [-0] are the falsy ones. *)
Definition truthy (x : number) : bool :=
  match x with
  | S754_zero _ | S754_nan => false
  | _ => true
  end.

(** [a || b] where [a] is a number. *)
Definition or_number (a b : number) : number :=
  if truthy a then a else b.

Definition number_eqb (x y : number) : bool :=
  match x, y with
  | S754_zero a, S754_zero b => Bool.eqb a b
  | S754_infinity a, S754_infinity b => Bool.eqb a b
  | S754_nan, S754_nan => true
  | S754_finite a m e, S754_finite b m' e' =>
      Bool.eqb a b && Pos.eqb m m' && Z.eqb e e'
  | _, _ => false
  end.

Definition is_negative (x : number) : bool :=
  match x with
  | S754_finite s _ _ | S754_infinity s => s
  | _ => false
  end.

(** *** [StringToNumber]

    Strings are byte strings (UTF-8).  The grammar is ECMAScript's
    [StringNumericLiteral]: optional white space around an optional
    literal, which is a signed decimal literal (with [Infinity],
    fraction and exponent) or an unsigned binary, octal or hexadecimal
    integer.  The empty literal is [+0]; anything else is [NaN]. *)

Definition code (c : ascii) : Z := Z.of_N (N_of_ascii c).

Definition is_digit (c : ascii) : bool := (48 <=? code c) && (code c <=? 57).

Definition digit_val (c : ascii) : N := N_of_ascii c - 48.

(** Value of a digit in radix [r], if [c] is one. *)
Definition radix_digit (r : N) (c : ascii) : option N :=
  let n := code c in
  let v :=
    if (48 <=? n) && (n <=? 57) then Some (n - 48)
    else if (97 <=? n) && (n <=? 102) then Some (n - 87)
    else if (65 <=? n) && (n <=? 70) then Some (n - 55)
    else None in
  match v with
  | Some d => if d <? Z.of_N r then Some (Z.to_N d) else None
  | None => None
  end.

(** Leading white space: TAB, LF, VT, FF, CR, SP, and the UTF-8
    encodings of U+00A0, U+1680, U+2000..U+200A, U+2028, U+2029,
    U+202F, U+205F, U+3000 and U+FEFF. *)
Fixpoint skip_ws (s : string) : string :=
  match s with
  | String c r =>
      let n := code c in
      if ((9 <=? n) && (n <=? 13)) || (n =? 32) then skip_ws r
      else
        match r with
        | String c1 r1 =>
            let n1 := code c1 in
            if (n =? 194) && (n1 =? 160) then skip_ws r1
            else
              match r1 with
              | String c2 r2 =>
                  let n2 := code c2 in
                  if ((n =? 225) && (n1 =? 154) && (n2 =? 128))
                     || ((n =? 226) && (n1 =? 128)
                         && (((128 <=? n2) && (n2 <=? 138))
                             || (n2 =? 168) || (n2 =? 169) || (n2 =? 175)))
                     || ((n =? 226) && (n1 =? 129) && (n2 =? 159))
                     || ((n =? 227) && (n1 =? 128) && (n2 =? 128))
                     || ((n =? 239) && (n1 =? 187) && (n2 =? 191))
                  then skip_ws r2
                  else s
              | EmptyString => s
              end
        | EmptyString => s
        end
  | EmptyString => s
  end.

(** Trailing white space, on the reversed string. *)
Fixpoint skip_ws_rev (s : string) : string :=
  match s with
  | String c r =>
      let n := code c in
      if ((9 <=? n) && (n <=? 13)) || (n =? 32) then skip_ws_rev r
      else
        match r with
        | String c1 r1 =>
            let n1 := code c1 in
            if (n1 =? 194) && (n =? 160) then skip_ws_rev r1
            else
              match r1 with
              | String c2 r2 =>
                  let n2 := code c2 in
                  if ((n2 =? 225) && (n1 =? 154) && (n =? 128))
                     || ((n2 =? 226) && (n1 =? 128)
                         && (((128 <=? n) && (n <=? 138))
                             || (n =? 168) || (n =? 169) || (n =? 175)))
                     || ((n2 =? 226) && (n1 =? 129) && (n =? 159))
                     || ((n2 =? 227) && (n1 =? 128) && (n =? 128))
                     || ((n2 =? 239) && (n1 =? 187) && (n =? 191))
                  then skip_ws_rev r2
                  else s
              | EmptyString => s
              end
        | EmptyString => s
        end
  | EmptyString => s
  end.

Definition rev_string (s : string) : string :=
  string_of_list_ascii (rev (list_ascii_of_string s)).

Definition trim (s : string) : string :=
  rev_string (skip_ws_rev (rev_string (skip_ws s))).

(** Reads decimal digits off the front of [s]: the accumulated value,
    how many digits were read, and the rest. *)
Fixpoint take_digits (s : string) (acc : N) (cnt : nat) : N * nat * string :=
  match s with
  | String c r =>
      if is_digit c then take_digits r (acc * 10 + digit_val c)%N (S cnt)
      else (acc, cnt, s)
  | EmptyString => (acc, cnt, s)
  end.

(** A whole string of radix-[r] digits (at least one). *)
Fixpoint radix_digits (r : N) (s : string) (acc : N) : option N :=
  match s with
  | String c rest =>
      match radix_digit r c with
      | Some d =>
          match rest with
          | EmptyString => Some (acc * r + d)%N
          | _ => radix_digits r rest (acc * r + d)%N
          end
      | None => None
      end
  | EmptyString => None
  end.

(** [ExponentPart_opt] followed by the end of the string. *)
Definition exponent_part (s : string) : option Z :=
  match s with
  | EmptyString => Some 0
  | String c r =>
      if (code c =? 101) || (code c =? 69) then
        let '(neg, ds) :=
          match r with
          | String "+" r' => (false, r')
          | String "-" r' => (true, r')
          | _ => (false, r)
          end in
        match take_digits ds 0%N 0%nat with
        | (_, O, _) => None
        | (v, _, EmptyString) => Some (if neg then - Z.of_N v else Z.of_N v)
        | _ => None
        end
      else None
  end.

(** [StrUnsignedDecimalLiteral], with the sign already read. *)
Definition unsigned_decimal (neg : bool) (s : string) : number :=
  if String.eqb s "Infinity" then Infinity neg
  else
    let '(ip, ni, r1) := take_digits s 0%N 0%nat in
    let '(m, nf, r2) :=
      match r1 with
      | String "." r =>
          let '(m, n, r2) := take_digits r ip ni in (m, (n - ni)%nat, r2)
      | _ => (ip, O, r1)
      end in
    match (ni + nf)%nat with
    | O => NaN
    | _ =>
        match exponent_part r2 with
        | Some ex => of_decimal neg m (ex - Z.of_nat nf)
        | None => NaN
        end
    end.

Definition of_integer_literal (r : N) (s : string) : number :=
  match radix_digits r s 0%N with
  | Some v => of_decimal false v 0
  | None => NaN
  end.

(** [StrNumericLiteral], or the empty literal. *)
Definition StrNumericLiteral (s : string) : number :=
  match s with
  | EmptyString => S754_zero false
  | String "0" (String "x" r) | String "0" (String "X" r) =>
      of_integer_literal 16 r
  | String "0" (String "o" r) | String "0" (String "O" r) =>
      of_integer_literal 8 r
  | String "0" (String "b" r) | String "0" (String "B" r) =>
      of_integer_literal 2 r
  | String "+" r => unsigned_decimal false r
  | String "-" r => unsigned_decimal true r
  | _ => unsigned_decimal false s
  end.

Definition StringToNumber (str : string) : number :=
  StrNumericLiteral (trim str).

(** [Number(v)] for the two kinds of argument the components pass: a
    string, or [null] (here [None]), which coerces to [+0]. *)
Definition Number (v : option string) : number :=
  match v with
  | None => S754_zero false
  | Some s => StringToNumber s
  end.

(** *** [Number::toString] (radix 10)

    The digits are the shortest decimal [s * 10 ^ (n - k)] (with [k]
    digits) that reads back as the same number and, among those, the one
    nearest to it; the layout rules (plain digits up to 21 integer
    digits, at most six leading fraction zeros, exponent notation
    otherwise) are ECMAScript's. *)

(** The positive rational [vn / vd] is below [10 ^ n]. *)
Definition below_pow10 (vn vd n : Z) : bool :=
  if 0 <=? n then vn <? 10 ^ n * vd else vn * 10 ^ (- n) <? vd.

(** The least [n], counting up from the start, with [vn / vd < 10 ^ n]. *)
Fixpoint find_exponent (fuel : nat) (vn vd n : Z) : Z :=
  match fuel with
  | O => n
  | S f => if below_pow10 vn vd n then n else find_exponent f vn vd (n + 1)
  end.

Definition decimal_exponent (vn vd : Z) : Z :=
  find_exponent 640 vn vd (-330).

(** Searches [k = 1, 2, ...] for a [k]-digit decimal that rounds to [v];
    returns the digits [s] and the exponent [n]. *)
Fixpoint shortest_digits (fuel : nat) (v : number) (vn vd n0 k : Z) : Z * Z :=
  let t := n0 - k in
  let lo := if 0 <=? t then vn / (vd * 10 ^ t) else (vn * 10 ^ (- t)) / vd in
  let hi := lo + 1 in
  let up := if hi =? 10 ^ k then (10 ^ (k - 1), n0 + 1) else (hi, n0) in
  match fuel with
  | O => (lo, n0)
  | S f =>
      let ok_lo := number_eqb (of_decimal false (Z.to_N lo) t) v in
      let ok_hi := number_eqb (of_decimal false (Z.to_N hi) t) v in
      match ok_lo, ok_hi with
      | true, false => (lo, n0)
      | false, true => up
      | true, true =>
          (* compare [v - lo * 10^t] with [hi * 10^t - v] *)
          let c :=
            if 0 <=? t then (2 * vn) ?= ((2 * lo + 1) * 10 ^ t * vd)
            else (2 * vn * 10 ^ (- t)) ?= ((2 * lo + 1) * vd) in
          match c with
          | Lt => (lo, n0)
          | Gt => up
          | Eq => if Z.even lo then (lo, n0) else up
          end
      | false, false => shortest_digits f v vn vd n0 (k + 1)
      end
  end.

Definition digits (z : Z) : string :=
  NilEmpty.string_of_uint (N.to_uint (Z.to_N z)).

Fixpoint zeros (n : nat) : string :=
  match n with
  | O => EmptyString
  | S m => String "0" (zeros m)
  end.

Definition take_string (n : nat) (s : string) : string :=
  String.substring 0 n s.

Definition drop_string (n : nat) (s : string) : string :=
  String.substring n (String.length s - n) s.

(** Layout of the digit string [ds] (of length [k]) with exponent [n]. *)
Definition layout (ds : string) (n : Z) : string :=
  let k := Z.of_nat (String.length ds) in
  if (k <=? n) && (n <=? 21) then
    ds ++ zeros (Z.to_nat (n - k))
  else if (0 <? n) && (n <=? 21) then
    take_string (Z.to_nat n) ds ++ "." ++ drop_string (Z.to_nat n) ds
  else if (-6 <? n) && (n <=? 0) then
    "0." ++ zeros (Z.to_nat (- n)) ++ ds
  else
    let e := n - 1 in
    let sign := if e <? 0 then "-" else "+" in
    if k =? 1 then ds ++ "e" ++ sign ++ digits (Z.abs e)
    else take_string 1 ds ++ "." ++ drop_string 1 ds
         ++ "e" ++ sign ++ digits (Z.abs e).

Definition NumberToString (x : number) : string :=
  match x with
  | S754_nan => "NaN"
  | S754_zero _ => "0"
  | S754_infinity neg => if neg then "-Infinity" else "Infinity"
  | S754_finite neg m e =>
      let vn := if 0 <=? e then Zpos m * 2 ^ e else Zpos m in
      let vd := if 0 <=? e then 1 else 2 ^ (- e) in
      let n0 := decimal_exponent vn vd in
      let '(s, n) :=
        shortest_digits 17 (S754_finite false m e) vn vd n0 1 in
      (if neg then "-" else "") ++ layout (digits s) n
  end.

End JS.

(** ** [URLSearchParams]

    A query is an ordered list of name-value pairs in which a name may
    occur more than once.  Its string form is the
    application/x-www-form-urlencoded serialization of the URL
    standard. *)
Module URLSearchParams.

Definition t : Type := list (string * string).

(** [get(name)]: the value of the first pair called [name], or [null]. *)
Fixpoint get (name : string) (q : t) : option string :=
  match q with
  | [] => None
  | (k, v) :: r => if String.eqb k name then Some v else get name r
  end.

(** [getAll(name)]: the values of all pairs called [name], in order. *)
Fixpoint getAll (name : string) (q : t) : list string :=
  match q with
  | [] => []
  | (k, v) :: r =>
      if String.eqb k name then v :: getAll name r else getAll name r
  end.

Fixpoint remove (name : string) (q : t) : t :=
  match q with
  | [] => []
  | (k, v) :: r =>
      if String.eqb k name then remove name r else (k, v) :: remove name r
  end.

(** [set(name, value)]: the first pair called [name] takes the value and
    the later ones are removed; without such a pair, one is appended. *)
Fixpoint set (name value : string) (q : t) : t :=
  match q with
  | [] => [(name, value)]
  | (k, v) :: r =>
      if String.eqb k name then (k, value) :: remove name r
      else (k, v) :: set name value r
  end.

(** Bytes the serializer leaves as they are: ASCII alphanumerics and
    [*], [-], [.], [_]. *)
Definition unreserved (c : ascii) : bool :=
  let n := JS.code c in
  ((48 <=? n) && (n <=? 57)) || ((65 <=? n) && (n <=? 90))
  || ((97 <=? n) && (n <=? 122))
  || (n =? 42) || (n =? 45) || (n =? 46) || (n =? 95).

Definition hex_digit (n : N) : ascii :=
  ascii_of_N (if n <? 10 then n + 48 else n + 55)%N.

Definition encode_byte (c : ascii) : string :=
  if unreserved c then String c EmptyString
  else if JS.code c =? 32 then "+"
  else
    let n := N_of_ascii c in
    String "%" (String (hex_digit (n / 16)) (String (hex_digit (n mod 16)) EmptyString)).

Fixpoint encode (s : string) : string :=
  match s with
  | EmptyString => EmptyString
  | String c r => encode_byte c ++ encode r
  end.

Definition serialize_pair (p : string * string) : string :=
  encode (fst p) ++ "=" ++ encode (snd p).

(** [toString()] *)
Fixpoint toString (q : t) : string :=
  match q with
  | [] => EmptyString
  | [p] => serialize_pair p
  | p :: r => serialize_pair p ++ "&" ++ toString r
  end.

(** The pieces of [s] between occurrences of [sep]. *)
Fixpoint split (sep : ascii) (s : string) : list string :=
  match s with
  | EmptyString => [EmptyString]
  | String c r =>
      if Ascii.eqb c sep then EmptyString :: split sep r
      else
        match split sep r with
        | h :: tl => String c h :: tl
        | [] => [String c EmptyString]
        end
  end.

(** [s] cut at its first [=]; without one, the value is empty. *)
Fixpoint cut (s : string) : string * string :=
  match s with
  | EmptyString => (EmptyString, EmptyString)
  | String c r =>
      if Ascii.eqb c "=" then (EmptyString, r)
      else let '(a, b) := cut r in (String c a, b)
  end.

Fixpoint plus_to_space (s : string) : string :=
  match s with
  | EmptyString => EmptyString
  | String c r =>
      String (if Ascii.eqb c "+" then " "%char else c) (plus_to_space r)
  end.

Definition hex_val (c : ascii) : option N := JS.radix_digit 16 c.

Fixpoint percent_decode (s : string) : string :=
  match s with
  | EmptyString => EmptyString
  | String c r =>
      if Ascii.eqb c "%" then
        match r with
        | String a (String b r2) =>
            match hex_val a, hex_val b with
            | Some x, Some y =>
                String (ascii_of_N (16 * x + y)) (percent_decode r2)
            | _, _ => String c (percent_decode r)
            end
        | _ => String c (percent_decode r)
        end
      else String c (percent_decode r)
  end.

Definition decode (s : string) : string := percent_decode (plus_to_space s).

Definition parse_piece (piece : string) : t :=
  match piece with
  | EmptyString => []
  | _ => let '(k, v) := cut piece in [(decode k, decode v)]
  end.

Definition parse (s : string) : t :=
  flat_map parse_piece (split "&" s).

(** [new URLSearchParams(init)] for a string [init]: one leading [?] is
    dropped. *)
Definition of_string (init : string) : t :=
  match init with
  | String "?" r => parse r
  | _ => parse init
  end.

(** No byte of [s] is [c]. *)
Fixpoint lacks (c : ascii) (s : string) : bool :=
  match s with
  | EmptyString => true
  | String a r => negb (Ascii.eqb a c) && lacks c r
  end.

End URLSearchParams.

(** ** The carousel ([Gallery]) *)
Module Gallery.

(** The three [useState] cells. *)
Record State : Type := mkState {
  currentIndex : Z;
  direction : Z;
  animation : bool
}.

Definition initial : State :=
  {| currentIndex := 0; direction := 0; animation := false |}.

Definition setDirection (d : Z) (s : State) : State :=
  {| currentIndex := currentIndex s; direction := d; animation := animation s |}.
Definition setAnimation (a : bool) (s : State) : State :=
  {| currentIndex := currentIndex s; direction := direction s; animation := a |}.
(** [setCurrentIndex] with an updater function of the previous index. *)
Definition setCurrentIndex (f : Z -> Z) (s : State) : State :=
  {| currentIndex := f (currentIndex s); direction := direction s;
     animation := animation s |}.

(** Where an image sits: the four alternatives of the class expression. *)
Inductive Placement : Type := Shown | OffLeft | OffRight | Concealed.

Definition placement_class (p : Placement) : string :=
  match p with
  | Shown => "opacity-100 translate-x-0"
  | OffLeft => "opacity-0 -translate-x-full"
  | OffRight => "opacity-0 translate-x-full"
  | Concealed => "opacity-0"
  end.

Section Images.

(** [images.length]; indices and lengths are integers far below 2^53, on
    which JavaScript arithmetic is exact, and [%] is the truncating
    remainder [Z.rem].  (With an empty list [%] yields NaN, but then no
    control is rendered and no handler can run.) *)
Variable length : Z.

Definition nextImage (s : State) : State :=
  if animation s then s
  else
    setCurrentIndex (fun prevIndex => Z.rem (prevIndex + 1) length)
      (setAnimation true (setDirection 1 s)).

Definition prevImage (s : State) : State :=
  if animation s then s
  else
    setCurrentIndex (fun prevIndex => Z.rem (prevIndex - 1 + length) length)
      (setAnimation true (setDirection (-1) s)).

(** The [onClick] of the indicator dot of [index]. *)
Definition dotClick (index : Z) (s : State) : State :=
  if animation s then s
  else
    setCurrentIndex (fun _ => index)
      (setAnimation true
         (setDirection (if currentIndex s <? index then 1 else -1) s)).

Definition placement (s : State) (index : Z) : Placement :=
  if index =? currentIndex s then Shown
  else if index =? Z.rem (currentIndex s - 1 + length) length then OffLeft
  else if index =? Z.rem (currentIndex s + 1) length then OffRight
  else Concealed.

Definition className (s : State) (index : Z) : string :=
  "absolute w-full h-full transition-all duration-500 ease-in-out "
  ++ placement_class (placement s index).

(** The arrows and dots are rendered only for more than one image. *)
Definition controls_rendered : bool := 1 <? length.

(** *** The mounted component: state, clock and pending timeouts *)

Record Timer : Type := mkTimer { tid : nat; due : nat }.

Record Instance : Type := mkInstance {
  state : State;
  mounted : bool;
  now : nat;                (* clock, in the time unit of [setTimeout] *)
  timers : list Timer;      (* pending timeouts, oldest first; the
                               callback of each is [setAnimation(false)] *)
  nextTimer : nat;          (* next timeout id *)
  cleanup : option nat      (* the timer the effect's cleanup will clear *)
}.

Definition with_state (s : State) (i : Instance) : Instance :=
  {| state := s; mounted := mounted i; now := now i; timers := timers i;
     nextTimer := nextTimer i; cleanup := cleanup i |}.

Definition setTimeout (delay : nat) (i : Instance) : nat * Instance :=
  (nextTimer i,
   {| state := state i; mounted := mounted i; now := now i;
      timers := timers i ++ [{| tid := nextTimer i; due := (now i + delay)%nat |}];
      nextTimer := S (nextTimer i); cleanup := cleanup i |}).

Definition clearTimeout (id : nat) (i : Instance) : Instance :=
  {| state := state i; mounted := mounted i; now := now i;
     timers := List.filter (fun t => negb (tid t =? id)%nat) (timers i);
     nextTimer := nextTimer i; cleanup := cleanup i |}.

Definition with_cleanup (c : option nat) (i : Instance) : Instance :=
  {| state := state i; mounted := mounted i; now := now i; timers := timers i;
     nextTimer := nextTimer i; cleanup := c |}.

(** The cleanup returned by the last run of the effect. *)
Definition run_cleanup (i : Instance) : Instance :=
  match cleanup i with
  | Some id => with_cleanup None (clearTimeout id i)
  | None => i
  end.

(** The effect body: with [animation] set, a timeout of 500 is taken and
    the returned cleanup clears it. *)
Definition run_effect (i : Instance) : Instance :=
  if animation (state i) then
    let '(timer, i') := setTimeout 500 i in
    with_cleanup (Some timer) i'
  else with_cleanup None i.

(** After a render the effect runs again (cleanup first) when its
    dependency [animation] differs from the previous render's. *)
Definition commit (previous : bool) (i : Instance) : Instance :=
  if Bool.eqb previous (animation (state i)) then i
  else run_effect (run_cleanup i).

(** A state update followed by the render it causes; updates to an
    unmounted component are dropped. *)
Definition update (f : State -> State) (i : Instance) : Instance :=
  if mounted i then commit (animation (state i)) (with_state (f (state i)) i)
  else i.

Definition mount : Instance :=
  run_effect {| state := initial; mounted := true; now := 0%nat; timers := [];
                nextTimer := 0%nat; cleanup := None |}.

Definition unmount (i : Instance) : Instance :=
  let i' := run_cleanup i in
  {| state := state i'; mounted := false; now := now i'; timers := timers i';
     nextTimer := nextTimer i'; cleanup := cleanup i' |}.

Definition remove_timer (id : nat) (i : Instance) : Instance :=
  clearTimeout id i.

(** Runs the timeouts that are due, oldest first. *)
Fixpoint fire_due (fuel : nat) (i : Instance) : Instance :=
  match fuel with
  | O => i
  | S f =>
      match List.find (fun t => (due t <=? now i)%nat) (timers i) with
      | Some t => fire_due f (update (setAnimation false) (remove_timer (tid t) i))
      | None => i
      end
  end.

(** One time unit passes. *)
Definition tick (i : Instance) : Instance :=
  let i' := {| state := state i; mounted := mounted i; now := S (now i);
               timers := timers i; nextTimer := nextTimer i;
               cleanup := cleanup i |} in
  fire_due (List.length (timers i')) i'.

Inductive Event : Type :=
  | ClickNext
  | ClickPrev
  | ClickDot (index : Z)
  | Tick
  | Unmount.

(** Whether the control an event clicks on exists and is not disabled. *)
Definition clickable (index : option Z) (i : Instance) : bool :=
  mounted i && controls_rendered && negb (animation (state i))
  && match index with
     | Some k => (0 <=? k) && (k <? length)
     | None => true
     end.

Definition step (ev : Event) (i : Instance) : Instance :=
  match ev with
  | ClickNext => if clickable None i then update nextImage i else i
  | ClickPrev => if clickable None i then update prevImage i else i
  | ClickDot k => if clickable (Some k) i then update (dotClick k) i else i
  | Tick => tick i
  | Unmount => if mounted i then unmount i else i
  end.

Definition run (evs : list Event) (i : Instance) : Instance :=
  fold_left (fun acc ev => step ev acc) evs i.

(** *** Invariants *)

Definition in_range (s : State) : Prop := 0 <= currentIndex s < length.

(** Shape of an instance: while mounted, the lock is held exactly when
    one timeout is pending, and that is the one the cleanup will clear;
    once unmounted nothing is pending. *)
Definition well_formed (i : Instance) : bool :=
  match mounted i, animation (state i), timers i, cleanup i with
  | true, true, [t], Some id => (tid t =? id)%nat && (now i <? due t)%nat
  | true, false, [], None => true
  | false, _, [], _ => true
  | _, _, _, _ => false
  end.

Definition advance_clock (n : nat) (i : Instance) : Instance :=
  {| state := state i; mounted := mounted i; now := (now i + n)%nat;
     timers := timers i; nextTimer := nextTimer i; cleanup := cleanup i |}.

(** One round of use: a click on the next arrow, then [d] time units. *)
Definition next_then_wait (d : nat) : list Event :=
  ClickNext :: repeat Tick d.

(** *** The visual state as the specification words it

    [active] for the current image; [incoming] for the image after the
    current one when the last move went forward and for the image before
    it when the last move went backward; [hidden] otherwise. *)
Inductive Visual : Type := active | incoming | hidden.

Definition spec_visual (current i last_move : Z) : Visual :=
  if i =? current then active
  else if ((i =? (current + 1) mod length) && (last_move =? 1))
          || ((i =? (current - 1 + length) mod length) && (last_move =? -1))
  then incoming
  else hidden.

End Images.

End Gallery.


(** ** The product grid controller ([ProductGridContent]) *)
Module ProductGrid.

(** What a call of the product data source comes to: the promise resolves
    with a sequence of records, or it rejects. *)
Inductive Outcome (Product : Type) : Type :=
  | Resolved (data : list Product)
  | Rejected.
Arguments Resolved {Product} data.
Arguments Rejected {Product}.

(** The argument object of [getProducts]. *)
Record Request : Type := mkRequest {
  req_page : JS.number;
  req_limit : Z;
  req_category : string;
  req_search : string;
  req_sortBy : string;
  req_order : string
}.

(** The [useState] cells. *)
Record State (Product : Type) : Type := mkState {
  products : list Product;
  error : option string;
  loading : bool;
  isReset : bool;
  hasMore : bool
}.
Arguments mkState {Product}.
Arguments products {Product}.
Arguments error {Product}.
Arguments loading {Product}.
Arguments isReset {Product}.
Arguments hasMore {Product}.

(** [v || ""] for a string or [null]. *)
Definition or_empty (v : option string) : string :=
  match v with
  | Some s => s
  | None => EmptyString
  end.

(** *** Parameters read from the URL *)

Definition currentPage (searchParams : URLSearchParams.t) : JS.number :=
  JS.or_number (JS.Number (URLSearchParams.get "page" searchParams)) (JS.of_Z 1).
Definition category (searchParams : URLSearchParams.t) : string :=
  or_empty (URLSearchParams.get "category" searchParams).
Definition search (searchParams : URLSearchParams.t) : string :=
  or_empty (URLSearchParams.get "search" searchParams).
Definition sortBy (searchParams : URLSearchParams.t) : string :=
  or_empty (URLSearchParams.get "sortBy" searchParams).
Definition order (searchParams : URLSearchParams.t) : string :=
  or_empty (URLSearchParams.get "order" searchParams).
Definition limit : Z := 20.

Definition nonempty (s : string) : bool :=
  match s with
  | EmptyString => false
  | _ => true
  end.

Definition isFilterActive (searchParams : URLSearchParams.t) : bool :=
  nonempty (category searchParams) || nonempty (search searchParams)
  || nonempty (sortBy searchParams).

(** The template [products-${currentPage}-${category}-${search}-${sortBy}-${order}]. *)
Definition cacheKey (searchParams : URLSearchParams.t) : string :=
  "products-" ++ JS.NumberToString (currentPage searchParams)
  ++ "-" ++ category searchParams ++ "-" ++ search searchParams
  ++ "-" ++ sortBy searchParams ++ "-" ++ order searchParams.

Definition request (searchParams : URLSearchParams.t) : Request :=
  {| req_page := currentPage searchParams; req_limit := limit;
     req_category := category searchParams; req_search := search searchParams;
     req_sortBy := sortBy searchParams; req_order := order searchParams |}.

Definition failure_message : string :=
  "Failed to load products. Please try again later.".

(** How a computation ends: normally with a value, or by throwing. *)
Inductive Completion (A : Type) : Type :=
  | Normal (a : A)
  | Thrown.
Arguments Normal {A} a.
Arguments Thrown {A}.

Section Grid.

Context {Product : Type}.

(** The collaborators of one render: the connectivity flag of
    [useOfflineMode] and the product data source. *)
Variable isOnline : bool.
Variable getProducts : Request -> Outcome Product.

Definition initial : State Product :=
  {| products := []; error := None; loading := true; isReset := false;
     hasMore := true |}.

(** *** State and exceptions

    A computation runs on the component state and the offline cache and
    either completes or throws; what it did before throwing stays done. *)
Record World : Type := mkWorld {
  grid : State Product;
  storage : gmap string (list Product)
}.

Definition M (A : Type) : Type := World -> Completion A * World.

Definition ret {A} (a : A) : M A := fun w => (Normal a, w).
Definition throw {A} : M A := fun w => (Thrown, w).
Definition bind {A B} (m : M A) (k : A -> M B) : M B :=
  fun w =>
    match m w with
    | (Normal a, w') => k a w'
    | (Thrown, w') => (Thrown, w')
    end.

Notation "x <- m ;; k" := (bind m (fun x => k))
  (at level 100, m at next level, right associativity).
Notation "m ;; k" := (bind m (fun _ => k))
  (at level 100, right associativity).

(** [try { body } catch (err) { handler } finally { final }] *)
Definition try_catch_finally (body handler final : M unit) : M unit :=
  fun w =>
    match body w with
    | (Normal _, w') => final w'
    | (Thrown, w') =>
        match handler w' with
        | (Normal _, w'') => final w''
        | (Thrown, w'') =>
            match final w'' with
            | (_, w3) => (Thrown, w3)
            end
        end
    end.

Definition modify (f : State Product -> State Product) : M unit :=
  fun w => (Normal tt, {| grid := f (grid w); storage := storage w |}).

Definition setProducts (v : list Product) : M unit :=
  modify (fun s => {| products := v; error := error s; loading := loading s;
                      isReset := isReset s; hasMore := hasMore s |}).
Definition setError (v : option string) : M unit :=
  modify (fun s => {| products := products s; error := v; loading := loading s;
                      isReset := isReset s; hasMore := hasMore s |}).
Definition setLoading (v : bool) : M unit :=
  modify (fun s => {| products := products s; error := error s; loading := v;
                      isReset := isReset s; hasMore := hasMore s |}).
Definition setHasMore (v : bool) : M unit :=
  modify (fun s => {| products := products s; error := error s; loading := loading s;
                      isReset := isReset s; hasMore := v |}).

(** [await getProducts(...)]: a rejected promise throws at the [await]. *)
Definition await_getProducts (r : Request) : M (list Product) :=
  match getProducts r with
  | Resolved data => ret data
  | Rejected => throw
  end.

(** Modelled from the spec: [firebaseDataManager.saveToLocalStorage(key,
    value)] of the offline cache, whose source is not part of the
    component; it stores the value under the key. *)
Definition saveToLocalStorage (key : string) (value : list Product) : M unit :=
  fun w => (Normal tt, {| grid := grid w; storage := <[key := value]> (storage w) |}).

(** Modelled from the spec: [firebaseDataManager.getFromLocalStorage(key)]
    of the offline cache; it gives the value stored under the key, or
    is absent. *)
Definition getFromLocalStorage (key : string) : M (option (list Product)) :=
  fun w => (Normal (storage w !! key), w).

(** [v || []] for an array or an absent value. *)
Definition or_nil (v : option (list Product)) : list Product :=
  match v with
  | Some l => l
  | None => []
  end.

Definition fetchProducts (searchParams : URLSearchParams.t) : M unit :=
  try_catch_finally
    (setLoading true ;;
     data <- (if isOnline then
                data <- await_getProducts (request searchParams) ;;
                saveToLocalStorage (cacheKey searchParams) data ;;
                ret data
              else
                v <- getFromLocalStorage (cacheKey searchParams) ;;
                ret (or_nil v)) ;;
     setProducts data ;;
     setHasMore (Z.of_nat (List.length data) =? limit) ;;
     setError None)
    (setError (Some failure_message))
    (setLoading false).

(** The world at the end of a run. *)
Definition after_fetch (searchParams : URLSearchParams.t) (w : World) : World :=
  snd (fetchProducts searchParams w).

(** *** Navigation *)

(** The URL [handlePageChange] hands to [router.push]. *)
Definition handlePageChange (searchParams : URLSearchParams.t)
    (newPage : JS.number) : string :=
  let currentParams :=
    URLSearchParams.of_string (URLSearchParams.toString searchParams) in
  let currentParams :=
    URLSearchParams.set "page" (JS.NumberToString newPage) currentParams in
  "/?" ++ URLSearchParams.toString currentParams.

(** *** The mounted component: state, router, clock and pending timeouts *)

Record Timer : Type := mkTimer { tid : nat; due : nat }.

Record Instance : Type := mkInstance {
  world : World;
  mounted : bool;
  pushed : list string;     (* URLs given to [router.push], oldest first *)
  now : nat;
  timers : list Timer;      (* pending timeouts, oldest first; the
                               callback of each is [setIsReset(false)] *)
  nextTimer : nat
}.

Definition setIsReset (v : bool) (i : Instance) : Instance :=
  if mounted i then
    let s := grid (world i) in
    {| world := {| grid := {| products := products s; error := error s;
                              loading := loading s; isReset := v;
                              hasMore := hasMore s |};
                   storage := storage (world i) |};
       mounted := mounted i; pushed := pushed i; now := now i;
       timers := timers i; nextTimer := nextTimer i |}
  else i.

Definition router_push (url : string) (i : Instance) : Instance :=
  {| world := world i; mounted := mounted i; pushed := pushed i ++ [url];
     now := now i; timers := timers i; nextTimer := nextTimer i |}.

Definition setTimeout (delay : nat) (i : Instance) : Instance :=
  {| world := world i; mounted := mounted i; pushed := pushed i; now := now i;
     timers := timers i ++ [{| tid := nextTimer i; due := (now i + delay)%nat |}];
     nextTimer := S (nextTimer i) |}.

Definition handleReset (i : Instance) : Instance :=
  setTimeout 100 (router_push "/" (setIsReset true i)).

(** The first render with its effect: one run of [fetchProducts]. *)
Definition mount (searchParams : URLSearchParams.t)
    (cache : gmap string (list Product)) : Instance :=
  {| world := after_fetch searchParams {| grid := initial; storage := cache |};
     mounted := true; pushed := []; now := 0%nat; timers := [];
     nextTimer := 0%nat |}.

(** The component registers no effect cleanup: unmounting runs none. *)
Definition unmount (i : Instance) : Instance :=
  {| world := world i; mounted := false; pushed := pushed i; now := now i;
     timers := timers i; nextTimer := nextTimer i |}.

Definition remove_timer (id : nat) (i : Instance) : Instance :=
  {| world := world i; mounted := mounted i; pushed := pushed i; now := now i;
     timers := List.filter (fun t => negb (tid t =? id)%nat) (timers i);
     nextTimer := nextTimer i |}.

Fixpoint fire_due (fuel : nat) (i : Instance) : Instance :=
  match fuel with
  | O => i
  | S f =>
      match List.find (fun t => (due t <=? now i)%nat) (timers i) with
      | Some t => fire_due f (setIsReset false (remove_timer (tid t) i))
      | None => i
      end
  end.

Definition tick (i : Instance) : Instance :=
  let i' := {| world := world i; mounted := mounted i; pushed := pushed i;
               now := S (now i); timers := timers i;
               nextTimer := nextTimer i |} in
  fire_due (List.length (timers i')) i'.

Inductive Event : Type :=
  | ClickReset
  | ClickPage (newPage : JS.number)
  | Tick
  | Unmount.

(** The grid (and with it the reset button and the pagination) is
    rendered once loading is over and no error is set; the reset button
    needs an active filter as well. *)
Definition grid_rendered (i : Instance) : bool :=
  mounted i && negb (loading (grid (world i)))
  && match error (grid (world i)) with
     | Some message => negb (nonempty message)
     | None => true
     end.

Definition step (searchParams : URLSearchParams.t) (ev : Event)
    (i : Instance) : Instance :=
  match ev with
  | ClickReset =>
      if grid_rendered i && isFilterActive searchParams then handleReset i
      else i
  | ClickPage n =>
      if grid_rendered i then router_push (handlePageChange searchParams n) i
      else i
  | Tick => tick i
  | Unmount => if mounted i then unmount i else i
  end.

Definition run (searchParams : URLSearchParams.t) (evs : list Event)
    (i : Instance) : Instance :=
  fold_left (fun acc ev => step searchParams ev acc) evs i.

End Grid.

End ProductGrid.

(** ** Runs of the carousel *)
Module GalleryRuns.

Import Gallery.

(** The number of time units that pass during a list of events. *)
Fixpoint elapsed (evs : list Event) : nat :=
  match evs with
  | [] => O
  | Tick :: r => S (elapsed r)
  | _ :: r => elapsed r
  end.

(** No event of the list unmounts the component. *)
Fixpoint stays_mounted (evs : list Event) : bool :=
  match evs with
  | [] => true
  | Unmount :: _ => false
  | _ :: r => stays_mounted r
  end.

(** A click on the previous arrow, or on a dot, then [d] time units. *)
Definition prev_then_wait (d : nat) : list Event :=
  ClickPrev :: repeat Tick d.

Definition dot_then_wait (k : Z) (d : nat) : list Event :=
  ClickDot k :: repeat Tick d.

(** A click on a control that exists for [length] images. *)
Definition navigation (length : Z) (ev : Event) : bool :=
  match ev with
  | ClickNext | ClickPrev => true
  | ClickDot k => (0 <=? k) && (k <? length)
  | Tick | Unmount => false
  end.

(** A pending timeout is due within the delay of 500 it was given. *)
Definition well_timed (i : Instance) : bool :=
  forallb (fun t => (due t <=? now i + 500)%nat) (timers i).

End GalleryRuns.

(** ** The fetch of the grid, in its two halves

    [fetchProducts] is an async function: online it runs up to the
    [await], and the rest of its body runs when the promise of
    [getProducts] settles, with the query, the connectivity flag and the
    setters of the render that started it.  Offline there is no [await]
    and the whole body runs at once. *)
Module GridFetch.

Import ProductGrid.

Section Fetch.

Context {Product : Type}.

(** Up to the [await]. *)
Definition begin : M (Product := Product) unit := setLoading true.

(** From the [await] on, given how the promise settled. *)
Definition resume (searchParams : URLSearchParams.t)
    (outcome : Outcome Product) : M (Product := Product) unit :=
  try_catch_finally
    (bind (match outcome with
           | Resolved data => ret data
           | Rejected => throw
           end)
       (fun data =>
          bind (saveToLocalStorage (cacheKey searchParams) data) (fun _ =>
          bind (setProducts data) (fun _ =>
          bind (setHasMore (Z.of_nat (List.length data) =? limit)) (fun _ =>
          setError None)))))
    (setError (Some failure_message))
    (setLoading false).

(** The component with the fetches it has started and not yet seen
    settle; each is the query its closure captured. *)
Record Page : Type := mkPage {
  world : World (Product := Product);
  mounted : bool;
  inflight : list URLSearchParams.t     (* oldest first *)
}.

(** State updates of an unmounted component are dropped; what was
    written to the offline cache stays written. *)
Definition apply (m : M (Product := Product) unit) (p : Page) : Page :=
  let w' := snd (m (world p)) in
  {| world := if mounted p then w'
              else {| grid := grid (world p); storage := storage w' |};
     mounted := mounted p; inflight := inflight p |}.

(** The effect calls [fetchProducts()]. *)
Definition start (isOnline : bool) (searchParams : URLSearchParams.t)
    (p : Page) : Page :=
  if isOnline then
    let p' := apply begin p in
    {| world := world p'; mounted := mounted p';
       inflight := inflight p' ++ [searchParams] |}
  else
    apply (fetchProducts false (fun _ => Rejected) searchParams) p.

(** The promise of the [n]-th pending fetch settles. *)
Definition settle (n : nat) (outcome : Outcome Product) (p : Page) : Page :=
  match inflight p !! n with
  | Some searchParams =>
      apply (resume searchParams outcome)
        {| world := world p; mounted := mounted p;
           inflight := take n (inflight p) ++ drop (S n) (inflight p) |}
  | None => p
  end.

Definition unmount (p : Page) : Page :=
  {| world := world p; mounted := false; inflight := inflight p |}.

(** The dependency list [[currentPage, category, search, sortBy, order]]
    of the effect, compared as React does, with [Object.is]. *)
Definition same_deps (before after : URLSearchParams.t) : bool :=
  JS.number_eqb (currentPage before) (currentPage after)
  && String.eqb (category before) (category after)
  && String.eqb (search before) (search after)
  && String.eqb (sortBy before) (sortBy after)
  && String.eqb (order before) (order after).

(** The first render: the effect always runs. *)
Definition mount (isOnline : bool) (searchParams : URLSearchParams.t)
    (cache : gmap string (list Product)) : Page :=
  start isOnline searchParams
    {| world := {| grid := initial; storage := cache |}; mounted := true;
       inflight := [] |}.

(** A later render, with the query [after] where the previous render had
    [before]: the effect runs again when a dependency changed. *)
Definition rerender (isOnline : bool) (before after : URLSearchParams.t)
    (p : Page) : Page :=
  if same_deps before after then p else start isOnline after p.

End Fetch.

End GridFetch.

(** ** What the grid renders *)
Module GridView.

Import ProductGrid.

Section View.

Context {Product : Type}.

(** The two alternatives below the filters: the "No products found."
    message, or the cards of the products. *)
Inductive Body : Type :=
  | NoProductsFound
  | ProductCards (cards : list Product).

(** The page, as far as the component decides it. *)
Record PageView : Type := mkPageView {
  offline_notice : bool;        (* the [OfflineFallback] banner *)
  update_notice : bool;         (* "A new version is available!" *)
  filters_isReset : bool;       (* [isReset] of both filter controls *)
  reset_button : bool;          (* "Reset Filters" *)
  body : Body;
  pagination_currentPage : JS.number;
  pagination_isLastPage : bool
}.

Inductive Rendered : Type :=
  | LoadingSpinner
  | Throws (error : string)
  | Shows (view : PageView).

(** Truthiness of [error], which is [null] or a string. *)
Definition error_truthy (e : option string) : bool :=
  match e with
  | Some message => nonempty message
  | None => false
  end.

Definition render (isOnline newVersionAvailable : bool)
    (searchParams : URLSearchParams.t) (s : State Product) : Rendered :=
  if loading s then LoadingSpinner
  else if error_truthy (error s) then Throws (or_empty (error s))
  else
    Shows {| offline_notice := negb isOnline;
             update_notice := newVersionAvailable;
             filters_isReset := isReset s;
             reset_button := isFilterActive searchParams;
             body := (if (Z.of_nat (List.length (products s)) =? 0)
                         && negb (error_truthy (error s))
                      then NoProductsFound
                      else ProductCards (products s));
             pagination_currentPage := currentPage searchParams;
             pagination_isLastPage := negb (hasMore s) |}.

End View.

End GridView.

(** * Properties of numbers and of [Number(...)] *)

Section NumberFacts.

Import JS.

(** ** Rounding never loses a value of magnitude at least one *)

Lemma digits2_pos_lower (m : positive) :
  2 ^ (Zpos (digits2_pos m) - 1) <= Zpos m.
Proof.
  induction m as [m IH|m IH|]; cbn [digits2_pos].
  - rewrite Pos2Z.inj_succ.
    replace (Z.succ (Zpos (digits2_pos m)) - 1)
      with (Z.succ (Zpos (digits2_pos m) - 1)) by lia.
    rewrite Z.pow_succ_r by lia. lia.
  - rewrite Pos2Z.inj_succ.
    replace (Z.succ (Zpos (digits2_pos m)) - 1)
      with (Z.succ (Zpos (digits2_pos m) - 1)) by lia.
    rewrite Z.pow_succ_r by lia. lia.
  - cbn. lia.
Qed.

Lemma shr_1_lower (r : shr_record) (j : Z) :
  0 <= j -> 2 ^ (1 + j) <= shr_m r -> 2 ^ j <= shr_m (shr_1 r).
Proof.
  intros Hj H.
  assert (P : 0 < 2 ^ j) by (apply Z.pow_pos_nonneg; lia).
  replace (1 + j) with (Z.succ j) in H by lia.
  rewrite Z.pow_succ_r in H by lia.
  destruct r as [m b s]. cbn [shr_m] in H.
  destruct m as [|[p|p|]|p]; cbn [shr_1 shr_m]; lia.
Qed.

Lemma iter_shr_1_lower (p : positive) :
  forall (r : shr_record) (j : Z),
    0 <= j -> 2 ^ (Zpos p + j) <= shr_m r ->
    2 ^ j <= shr_m (SpecFloat.iter_pos shr_1 p r).
Proof.
  induction p as [p IH|p IH|]; intros r j Hj H; cbn [SpecFloat.iter_pos].
  - apply IH; [exact Hj|]. apply IH; [lia|]. apply shr_1_lower; [lia|].
    replace (1 + (Zpos p + (Zpos p + j))) with (Zpos p~1 + j) by lia.
    exact H.
  - apply IH; [exact Hj|]. apply IH; [lia|].
    replace (Zpos p + (Zpos p + j)) with (Zpos p~0 + j) by lia.
    exact H.
  - apply shr_1_lower; assumption.
Qed.

Lemma shr_m_of_loc (m : Z) (l : location) :
  shr_m (shr_record_of_loc m l) = m.
Proof. destruct l as [|[]]; reflexivity. Qed.

(** Shifting to the format keeps a positive mantissa positive, as long
    as the exponent is not below the smallest one. *)
Lemma shr_fexp_positive (m : positive) (e : Z) (l : location) :
  -1074 <= e ->
  0 < shr_m (fst (shr_fexp prec emax (Zpos m) e l))
  /\ -1074 <= snd (shr_fexp prec emax (Zpos m) e l).
Proof.
  intros He. unfold shr_fexp, shr.
  pose proof (digits2_pos_lower m) as Hd.
  cbn [Zdigits2].
  set (d := Zpos (digits2_pos m)) in *.
  assert (Hd1 : 1 <= d) by (unfold d; lia).
  assert (Hn : fexp prec emax (d + e) - e = Z.max (d - 53) (-1074 - e)).
  { unfold fexp, SpecFloat.emin, prec, emax. lia. }
  rewrite Hn.
  destruct (Z.max (d - 53) (-1074 - e)) as [|n|n] eqn:En; cbn [fst snd].
  - rewrite shr_m_of_loc. lia.
  - split; [|lia].
    assert (Hj : 0 <= d - 1 - Zpos n) by lia.
    pose proof (iter_shr_1_lower n (shr_record_of_loc (Zpos m) l)
                  (d - 1 - Zpos n) Hj) as H.
    rewrite shr_m_of_loc in H.
    replace (Zpos n + (d - 1 - Zpos n)) with (d - 1) in H by lia.
    specialize (H Hd).
    assert (0 < 2 ^ (d - 1 - Zpos n)) by (apply Z.pow_pos_nonneg; lia).
    lia.
  - rewrite shr_m_of_loc. lia.
Qed.

Lemma round_nearest_even_lower (m : Z) (l : location) :
  m <= round_nearest_even m l.
Proof.
  destruct l as [|[]]; cbn [round_nearest_even]; try lia.
  destruct (Z.even m); lia.
Qed.

(** Rounding a positive mantissa gives a finite number or an infinity of
    the same sign, never a zero or NaN. *)
Lemma binary_round_aux_nonzero (s : bool) (m : positive) (e : Z) (l : location) :
  -1074 <= e ->
  truthy (binary_round_aux prec emax s (Zpos m) e l) = true
  /\ is_negative (binary_round_aux prec emax s (Zpos m) e l) = s.
Proof.
  intros He. unfold binary_round_aux.
  destruct (shr_fexp_positive m e l He) as [H1 H2].
  destruct (shr_fexp prec emax (Zpos m) e l) as [r1 e1]. cbn [fst snd] in H1, H2.
  pose proof (round_nearest_even_lower (shr_m r1) (loc_of_shr_record r1)) as Hr.
  destruct (round_nearest_even (shr_m r1) (loc_of_shr_record r1))
    as [|m2|m2]; try lia.
  destruct (shr_fexp_positive m2 e1 loc_Exact H2) as [H3 _].
  destruct (shr_fexp prec emax (Zpos m2) e1 loc_Exact) as [r2 e2].
  cbn [fst] in H3.
  destruct (shr_m r2) as [|m3|m3]; try lia.
  destruct (e2 <=? emax - prec); split; reflexivity.
Qed.

Lemma div_eucl_div_mod (a b : Z) : Z.div_eucl a b = (a / b, a mod b).
Proof. unfold Z.div, Z.modulo. destruct (Z.div_eucl a b). reflexivity. Qed.

(** A ratio of magnitude at least one rounds to a truthy number of its
    sign. *)
Lemma of_ratio_nonzero (neg : bool) (n d : positive) :
  (d <= n)%positive ->
  truthy (of_ratio neg n d) = true /\ is_negative (of_ratio neg n d) = neg.
Proof.
  intros Hdn. unfold of_ratio, SFdiv_core_binary.
  set (e' := Z.min _ _).
  assert (He1 : -1074 <= e').
  { unfold e', fexp, SpecFloat.emin, prec, emax. lia. }
  assert (He2 : e' <= 0) by (unfold e'; lia).
  set (m' := match 0 - 0 - e' with Z0 => _ | Zpos _ => _ | Zneg _ => _ end).
  assert (Hm : Zpos n <= m').
  { unfold m'. destruct (0 - 0 - e') as [|k|k] eqn:Ek; try lia.
    rewrite Z.shiftl_mul_pow2 by lia.
    assert (0 < 2 ^ Zpos k) by (apply Z.pow_pos_nonneg; lia). nia. }
  rewrite div_eucl_div_mod.
  assert (Hq : 0 < m' / Zpos d).
  { apply Z.div_str_pos. lia. }
  destruct (m' / Zpos d) as [|q|q]; try lia.
  apply binary_round_aux_nonzero. exact He1.
Qed.

(** The double of a non-zero integer is truthy and has its sign. *)
Lemma of_Z_nonzero (z : Z) :
  z <> 0 ->
  truthy (of_Z z) = true /\ is_negative (of_Z z) = (z <? 0).
Proof.
  intros Hz. unfold of_Z, of_decimal.
  destruct z as [|p|p]; [congruence| |]; cbn [Z.abs_N Z.leb Z.compare];
    rewrite Z.pow_0_r, Z.mul_1_r; cbn [Z.to_pos];
    apply of_ratio_nonzero; lia.
Qed.

End NumberFacts.

(** ** Integer numerals *)

Section NumeralFacts.

Import JS.

Local Open Scope string_scope.

Local Ltac digit_step :=
  match goal with
  | |- context [is_digit ?c] => change (is_digit c) with true; cbv iota
  end;
  match goal with
  | |- context [digit_val ?c] =>
      let v := eval vm_compute in (digit_val c) in
      change (digit_val c) with v
  end.

Lemma take_digits_acc (d : Decimal.uint) :
  forall (acc : positive) (cnt : nat),
    take_digits (NilEmpty.string_of_uint d) (Npos acc) cnt
    = (Npos (Pos.of_uint_acc d acc), (cnt + Decimal.nb_digits d)%nat, "").
Proof.
  induction d as [|d IH|d IH|d IH|d IH|d IH|d IH|d IH|d IH|d IH|d IH];
    intros acc cnt;
    cbn [NilEmpty.string_of_uint take_digits Decimal.nb_digits Pos.of_uint_acc];
    [rewrite Nat.add_0_r; reflexivity | ..];
    digit_step;
    match goal with
    | |- take_digits _ ?a _ = (Npos (Pos.of_uint_acc _ ?b), _, _) =>
        replace a with (Npos b) by (cbn [N.mul N.add]; f_equal; lia)
    end;
    rewrite IH; f_equal; f_equal; lia.
Qed.

Lemma take_digits_uint (d : Decimal.uint) :
  forall cnt : nat,
    take_digits (NilEmpty.string_of_uint d) 0%N cnt
    = (Pos.of_uint d, (cnt + Decimal.nb_digits d)%nat, "").
Proof.
  induction d as [|d IH|d IH|d IH|d IH|d IH|d IH|d IH|d IH|d IH|d IH];
    intros cnt;
    cbn [NilEmpty.string_of_uint take_digits Decimal.nb_digits Pos.of_uint];
    [rewrite Nat.add_0_r; reflexivity | ..];
    digit_step;
    [ change (0 * 10 + 0)%N with 0%N; rewrite IH; f_equal; f_equal; lia | ..];
    match goal with
    | |- take_digits _ ?a _ = _ =>
        let v := eval vm_compute in a in change a with v
    end;
    rewrite take_digits_acc; f_equal; f_equal; lia.
Qed.

Lemma skip_ws_graphic (c : ascii) (r : string) :
  (33 <= code c <= 126)%Z -> skip_ws (String c r) = String c r.
Proof.
  intros H. cbn [skip_ws]. set (n := code c) in *.
  assert (E1 : (n <=? 13)%Z = false) by (apply Z.leb_gt; lia).
  assert (E2 : (n =? 32)%Z = false) by (apply Z.eqb_neq; lia).
  assert (E3 : (n =? 194)%Z = false) by (apply Z.eqb_neq; lia).
  assert (E4 : (n =? 225)%Z = false) by (apply Z.eqb_neq; lia).
  assert (E5 : (n =? 226)%Z = false) by (apply Z.eqb_neq; lia).
  assert (E6 : (n =? 227)%Z = false) by (apply Z.eqb_neq; lia).
  assert (E7 : (n =? 239)%Z = false) by (apply Z.eqb_neq; lia).
  destruct r as [|c1 [|c2 r2]];
    rewrite ?E1, ?E2, ?E3, ?E4, ?E5, ?E6, ?E7;
    repeat rewrite ?Bool.andb_false_r, ?Bool.orb_false_r;
    reflexivity.
Qed.

Lemma skip_ws_rev_graphic (c : ascii) (r : string) :
  (33 <= code c <= 126)%Z -> skip_ws_rev (String c r) = String c r.
Proof.
  intros H. cbn [skip_ws_rev]. set (n := code c) in *.
  assert (E1 : (n <=? 13)%Z = false) by (apply Z.leb_gt; lia).
  assert (E2 : (n =? 32)%Z = false) by (apply Z.eqb_neq; lia).
  assert (E3 : (n =? 160)%Z = false) by (apply Z.eqb_neq; lia).
  assert (E4 : (n =? 128)%Z = false) by (apply Z.eqb_neq; lia).
  assert (E5 : (128 <=? n)%Z = false) by (apply Z.leb_gt; lia).
  assert (E6 : (n =? 168)%Z = false) by (apply Z.eqb_neq; lia).
  assert (E7 : (n =? 169)%Z = false) by (apply Z.eqb_neq; lia).
  assert (E8 : (n =? 175)%Z = false) by (apply Z.eqb_neq; lia).
  assert (E9 : (n =? 159)%Z = false) by (apply Z.eqb_neq; lia).
  assert (E10 : (n =? 191)%Z = false) by (apply Z.eqb_neq; lia).
  destruct r as [|c1 [|c2 r2]];
    rewrite ?E1, ?E2, ?E3, ?E4, ?E5, ?E6, ?E7, ?E8, ?E9, ?E10;
    repeat rewrite ?Bool.andb_false_r, ?Bool.orb_false_r;
    reflexivity.
Qed.

Lemma rev_string_involutive (s : string) : rev_string (rev_string s) = s.
Proof.
  unfold rev_string.
  rewrite list_ascii_of_string_of_list_ascii, rev_involutive.
  apply string_of_list_ascii_of_string.
Qed.

(** A non-empty string of printable ASCII is its own trimming. *)
Lemma trim_graphic (s : string) :
  s <> "" ->
  Forall (fun c => 33 <= code c <= 126) (list_ascii_of_string s) ->
  trim s = s.
Proof.
  intros Hne Hall. destruct s as [|c r]; [congruence|].
  unfold trim. rewrite skip_ws_graphic by (inversion Hall; assumption).
  pose proof (rev_string_involutive (String c r)) as Hinv.
  unfold rev_string at 2 in Hinv. unfold rev_string at 2.
  apply Forall_rev in Hall.
  destruct (rev (list_ascii_of_string (String c r))) as [|c' l'] eqn:E.
  - apply (f_equal (@List.length ascii)) in E.
    rewrite length_rev in E. cbn in E. discriminate.
  - cbn [string_of_list_ascii] in *.
    rewrite skip_ws_rev_graphic by (inversion Hall; assumption).
    exact Hinv.
Qed.

Lemma numeral_graphic (d : Decimal.uint) :
  Forall (fun c => 33 <= code c <= 126)
    (list_ascii_of_string (NilEmpty.string_of_uint d)).
Proof.
  induction d; cbn [NilEmpty.string_of_uint list_ascii_of_string];
    constructor; try assumption; vm_compute; split; discriminate.
Qed.

Lemma numeral_not_Infinity (d : Decimal.uint) :
  d <> Decimal.Nil ->
  String.eqb (NilEmpty.string_of_uint d) "Infinity" = false.
Proof. destruct d; [congruence|reflexivity..]. Qed.

(** The digits of a numeral, read as an unsigned decimal literal. *)
Lemma unsigned_decimal_numeral (neg : bool) (p : positive) :
  unsigned_decimal neg (digits (Zpos p)) = of_decimal neg (Npos p) 0.
Proof.
  unfold digits. cbn [Z.to_N N.to_uint].
  pose proof (DecimalPos.Unsigned.of_to p) as Hp.
  pose proof (DecimalPos.Unsigned.to_uint_nonnil p) as Hn.
  set (d := Pos.to_uint p) in *.
  unfold unsigned_decimal.
  rewrite numeral_not_Infinity by exact Hn.
  rewrite take_digits_uint, Hp. cbn [Nat.add].
  rewrite Nat.add_0_r.
  destruct d; [congruence|reflexivity..].
Qed.

Lemma literal_of_numeral (d : Decimal.uint) :
  d <> Decimal.Nil ->
  StrNumericLiteral (NilEmpty.string_of_uint d)
  = unsigned_decimal false (NilEmpty.string_of_uint d).
Proof.
  destruct d as [|d|d|d|d|d|d|d|d|d|d]; [congruence|..]; try reflexivity.
  destruct d; reflexivity.
Qed.

(** [Number] of the numeral of a positive integer, and of the same
    numeral with a minus sign. *)
Lemma StringToNumber_numeral (p : positive) :
  StringToNumber (digits (Zpos p)) = of_Z (Zpos p)
  /\ StringToNumber ("-" ++ digits (Zpos p)) = of_Z (Zneg p).
Proof.
  pose proof (unsigned_decimal_numeral false p) as Hpos.
  pose proof (unsigned_decimal_numeral true p) as Hneg.
  unfold digits in *. cbn [Z.to_N N.to_uint] in *.
  pose proof (DecimalPos.Unsigned.to_uint_nonnil p) as Hn.
  set (d := Pos.to_uint p) in *.
  unfold StringToNumber. split.
  - rewrite trim_graphic.
    + rewrite literal_of_numeral by exact Hn. exact Hpos.
    + destruct d; [congruence|discriminate..].
    + apply numeral_graphic.
  - change ("-" ++ NilEmpty.string_of_uint d)
      with (String "-" (NilEmpty.string_of_uint d)).
    rewrite trim_graphic.
    + exact Hneg.
    + discriminate.
    + cbn [list_ascii_of_string]. constructor; [|apply numeral_graphic].
      vm_compute. split; discriminate.
Qed.

End NumeralFacts.

(** * Properties of the carousel *)

Section GalleryFacts.

Import Gallery.

Variable length : Z.

(** ** Handlers *)

Lemma rem_next (c : Z) :
  0 < length -> 0 <= c < length ->
  Z.rem (c + 1) length = (c + 1) mod length.
Proof. intros HN Hc. apply Z.rem_mod_nonneg; lia. Qed.

Lemma rem_prev (c : Z) :
  0 < length -> 0 <= c < length ->
  Z.rem (c - 1 + length) length = (c - 1) mod length.
Proof.
  intros HN Hc. rewrite Z.rem_mod_nonneg by lia.
  replace (c - 1 + length) with (c - 1 + 1 * length) by lia.
  apply Z.mod_add. lia.
Qed.

Lemma nextImage_idle (s : State) :
  animation s = false ->
  nextImage length s =
    {| currentIndex := Z.rem (currentIndex s + 1) length;
       direction := 1; animation := true |}.
Proof. intros H. unfold nextImage. rewrite H. reflexivity. Qed.

Lemma prevImage_idle (s : State) :
  animation s = false ->
  prevImage length s =
    {| currentIndex := Z.rem (currentIndex s - 1 + length) length;
       direction := -1; animation := true |}.
Proof. intros H. unfold prevImage. rewrite H. reflexivity. Qed.

Lemma dotClick_idle (k : Z) (s : State) :
  animation s = false ->
  dotClick k s =
    {| currentIndex := k;
       direction := (if currentIndex s <? k then 1 else -1);
       animation := true |}.
Proof. intros H. unfold dotClick. rewrite H. reflexivity. Qed.

Lemma nextImage_in_range (s : State) :
  0 < length -> in_range length s -> in_range length (nextImage length s).
Proof.
  intros HN Hs. unfold in_range in *. unfold nextImage.
  destruct (animation s); [exact Hs|]. cbn.
  rewrite rem_next by lia. apply Z.mod_pos_bound. lia.
Qed.

Lemma prevImage_in_range (s : State) :
  0 < length -> in_range length s -> in_range length (prevImage length s).
Proof.
  intros HN Hs. unfold in_range in *. unfold prevImage.
  destruct (animation s); [exact Hs|]. cbn.
  rewrite rem_prev by lia. apply Z.mod_pos_bound. lia.
Qed.

Lemma dotClick_in_range (k : Z) (s : State) :
  0 <= k < length -> in_range length s -> in_range length (dotClick k s).
Proof.
  intros Hk Hs. unfold in_range in *. unfold dotClick.
  destruct (animation s); [exact Hs|]. cbn. exact Hk.
Qed.

(** ** The mounted component *)

Lemma well_formed_idle (i : Instance) :
  well_formed i = true -> mounted i = true -> animation (state i) = false ->
  timers i = [] /\ cleanup i = None.
Proof.
  unfold well_formed. intros H Hm Ha. rewrite Hm, Ha in H.
  destruct (timers i); [|discriminate].
  destruct (cleanup i); [discriminate|]. split; reflexivity.
Qed.

Lemma well_formed_locked (i : Instance) :
  well_formed i = true -> mounted i = true -> animation (state i) = true ->
  exists t, timers i = [t] /\ cleanup i = Some (tid t) /\ (now i < due t)%nat.
Proof.
  unfold well_formed. intros H Hm Ha. rewrite Hm, Ha in H.
  destruct (timers i) as [|t [|? ?]]; try discriminate.
  destruct (cleanup i) as [id|]; [|discriminate].
  apply andb_true_iff in H as [H1 H2].
  apply Nat.eqb_eq in H1. apply Nat.ltb_lt in H2. subst id.
  exists t. repeat split; assumption.
Qed.

Lemma well_formed_unmounted (i : Instance) :
  well_formed i = true -> mounted i = false -> timers i = [].
Proof.
  unfold well_formed. intros H Hm. rewrite Hm in H.
  destruct (timers i); [reflexivity|].
  destruct (animation (state i)); discriminate.
Qed.

(** A handler that takes the lock, run on an idle mounted component,
    leaves one timeout pending, due in 500. *)
Lemma update_takes_lock (f : State -> State) (i : Instance) :
  well_formed i = true -> mounted i = true -> animation (state i) = false ->
  animation (f (state i)) = true ->
  update f i =
    {| state := f (state i); mounted := true; now := now i;
       timers := [{| tid := nextTimer i; due := (now i + 500)%nat |}];
       nextTimer := S (nextTimer i); cleanup := Some (nextTimer i) |}.
Proof.
  intros Hwf Hm Ha Hf.
  destruct (well_formed_idle i Hwf Hm Ha) as [Ht Hc].
  unfold update. rewrite Hm. unfold commit. cbn. rewrite Ha, Hf. cbn.
  unfold run_cleanup. cbn. rewrite Hc. unfold run_effect. cbn. rewrite Hf.
  cbn. rewrite Ht, Hm. reflexivity.
Qed.

(** A handler that finds the lock taken changes nothing. *)
Lemma update_same (f : State -> State) (i : Instance) :
  f (state i) = state i -> update f i = i.
Proof.
  intros Hf. unfold update. destruct (mounted i); [|reflexivity].
  rewrite Hf. unfold commit. cbn. rewrite Bool.eqb_reflx.
  destruct i; reflexivity.
Qed.

Lemma tick_nothing_pending (i : Instance) :
  timers i = [] -> tick i = advance_clock 1 i.
Proof.
  intros H. unfold tick, advance_clock. cbn. rewrite H. cbn.
  rewrite Nat.add_1_r. reflexivity.
Qed.

Lemma ticks_nothing_pending (n : nat) (i : Instance) :
  timers i = [] -> run length (repeat Tick n) i = advance_clock n i.
Proof.
  revert i. induction n as [|n IH]; intros i H.
  - unfold advance_clock. cbn. rewrite Nat.add_0_r. destruct i; reflexivity.
  - change (run length (repeat Tick (S n)) i)
      with (run length (repeat Tick n) (tick i)).
    rewrite tick_nothing_pending by exact H.
    rewrite IH by exact H.
    unfold advance_clock. cbn. f_equal. lia.
Qed.

Lemma tick_not_due (i : Instance) (t : Timer) :
  timers i = [t] -> (S (now i) < due t)%nat -> tick i = advance_clock 1 i.
Proof.
  intros Ht Hd. unfold tick, advance_clock. cbn. rewrite Ht. cbn.
  destruct (Nat.leb_spec (due t) (S (now i))); [lia|].
  rewrite Nat.add_1_r. reflexivity.
Qed.

(** The timeout fires: the lock is released and nothing stays pending. *)
Lemma tick_due (i : Instance) (t : Timer) :
  mounted i = true -> animation (state i) = true ->
  timers i = [t] -> cleanup i = Some (tid t) -> due t = S (now i) ->
  tick i =
    {| state := setAnimation false (state i); mounted := true;
       now := S (now i); timers := []; nextTimer := nextTimer i;
       cleanup := None |}.
Proof.
  intros Hm Ha Ht Hc Hd. unfold tick. cbn. rewrite Ht. cbn.
  rewrite Hd, Nat.leb_refl.
  unfold update, remove_timer, clearTimeout. cbn. rewrite Hm.
  rewrite Nat.eqb_refl. cbn.
  unfold commit. cbn. rewrite Ha. cbn.
  unfold run_cleanup. cbn. rewrite Hc. cbn.
  unfold run_effect. cbn. reflexivity.
Qed.

Lemma tick_well_formed (i : Instance) :
  well_formed i = true -> well_formed (tick i) = true.
Proof.
  intros Hwf. destruct (mounted i) eqn:Hm.
  - destruct (animation (state i)) eqn:Ha.
    + destruct (well_formed_locked i Hwf Hm Ha) as (t & Ht & Hc & Hd).
      destruct (Nat.eq_dec (due t) (S (now i))) as [E|E].
      * rewrite (tick_due i t Hm Ha Ht Hc E). reflexivity.
      * rewrite (tick_not_due i t Ht) by lia.
        unfold well_formed, advance_clock. cbn. rewrite Hm, Ha, Ht, Hc.
        rewrite Nat.eqb_refl. cbn. apply Nat.ltb_lt. lia.
    + destruct (well_formed_idle i Hwf Hm Ha) as [Ht Hc].
      rewrite tick_nothing_pending by exact Ht.
      unfold well_formed, advance_clock. cbn. rewrite Hm, Ha, Ht, Hc.
      reflexivity.
  - pose proof (well_formed_unmounted i Hwf Hm) as Ht.
    rewrite tick_nothing_pending by exact Ht.
    unfold well_formed, advance_clock. cbn. rewrite Hm, Ht. reflexivity.
Qed.

Lemma unmount_clears (i : Instance) :
  well_formed i = true -> mounted i = true ->
  timers (unmount i) = [] /\ mounted (unmount i) = false
  /\ state (unmount i) = state i.
Proof.
  intros Hwf Hm. destruct (animation (state i)) eqn:Ha.
  - destruct (well_formed_locked i Hwf Hm Ha) as (t & Ht & Hc & Hd).
    unfold unmount, run_cleanup. rewrite Hc. cbn. rewrite Ht. cbn.
    rewrite Nat.eqb_refl. cbn. repeat split; reflexivity.
  - destruct (well_formed_idle i Hwf Hm Ha) as [Ht Hc].
    unfold unmount, run_cleanup. rewrite Hc. cbn.
    repeat split; try reflexivity. exact Ht.
Qed.

Lemma click_well_formed (f : State -> State) (i : Instance) :
  (forall s, animation s = false -> animation (f s) = true) ->
  well_formed i = true -> mounted i = true -> animation (state i) = false ->
  well_formed (update f i) = true.
Proof.
  intros Hf Hwf Hm Ha.
  rewrite update_takes_lock by auto.
  unfold well_formed. cbn. rewrite Hf by exact Ha.
  rewrite Nat.eqb_refl. cbn. apply Nat.ltb_lt. lia.
Qed.

Lemma clickable_idle (k : option Z) (i : Instance) :
  clickable length k i = true ->
  mounted i = true /\ animation (state i) = false /\ 1 < length
  /\ match k with Some k => 0 <= k < length | None => True end.
Proof.
  unfold clickable, controls_rendered. intros H.
  repeat (apply andb_true_iff in H as [H ?]).
  repeat split; try assumption.
  - destruct (animation (state i)); [discriminate|reflexivity].
  - lia.
  - destruct k; [|exact I]. lia.
Qed.

Lemma step_well_formed (ev : Event) (i : Instance) :
  well_formed i = true -> well_formed (step length ev i) = true.
Proof.
  intros Hwf. destruct ev; cbn.
  - destruct (clickable length None i) eqn:Hc; [|exact Hwf].
    apply clickable_idle in Hc as (Hm & Ha & _).
    apply click_well_formed; auto.
    intros s Hs. rewrite nextImage_idle by exact Hs. reflexivity.
  - destruct (clickable length None i) eqn:Hc; [|exact Hwf].
    apply clickable_idle in Hc as (Hm & Ha & _).
    apply click_well_formed; auto.
    intros s Hs. rewrite prevImage_idle by exact Hs. reflexivity.
  - destruct (clickable length (Some index) i) eqn:Hc; [|exact Hwf].
    apply clickable_idle in Hc as (Hm & Ha & _).
    apply click_well_formed; auto.
    intros s Hs. rewrite dotClick_idle by exact Hs. reflexivity.
  - apply tick_well_formed. exact Hwf.
  - destruct (mounted i) eqn:Hm; [|exact Hwf].
    destruct (unmount_clears i Hwf Hm) as (Ht & Hm' & _).
    unfold well_formed. rewrite Hm', Ht. reflexivity.
Qed.

Lemma run_app (evs evs' : list Event) (i : Instance) :
  run length (evs ++ evs') i = run length evs' (run length evs i).
Proof. unfold run. apply fold_left_app. Qed.

Lemma run_well_formed (evs : list Event) (i : Instance) :
  well_formed i = true -> well_formed (run length evs i) = true.
Proof.
  revert i. induction evs as [|ev evs IH]; intros i Hwf; [exact Hwf|].
  cbn. apply IH. apply step_well_formed. exact Hwf.
Qed.

End GalleryFacts.

(** * The carousel: claims *)

Section GalleryClaims.

Import Gallery.

Variable length : Z.

Lemma state_run_cleanup (i : Instance) : state (run_cleanup i) = state i.
Proof. unfold run_cleanup. destruct (cleanup i); reflexivity. Qed.

Lemma state_run_effect (i : Instance) : state (run_effect i) = state i.
Proof. unfold run_effect. destruct (animation (state i)); reflexivity. Qed.

Lemma state_commit (b : bool) (i : Instance) : state (commit b i) = state i.
Proof.
  unfold commit. destruct (Bool.eqb b (animation (state i))); [reflexivity|].
  rewrite state_run_effect. apply state_run_cleanup.
Qed.

Lemma state_update (f : State -> State) (i : Instance) :
  state (update f i) = if mounted i then f (state i) else state i.
Proof.
  unfold update. destruct (mounted i); [|reflexivity]. apply state_commit.
Qed.

Lemma fire_due_currentIndex (fuel : nat) (i : Instance) :
  currentIndex (state (fire_due fuel i)) = currentIndex (state i).
Proof.
  revert i. induction fuel as [|fuel IH]; intros i; [reflexivity|].
  cbn. destruct (find _ (timers i)) as [t|]; [|reflexivity].
  rewrite IH, state_update. cbn.
  destruct (mounted i); reflexivity.
Qed.

Lemma step_in_range (ev : Event) (i : Instance) :
  0 < length -> in_range length (state i) ->
  in_range length (state (step length ev i)).
Proof.
  intros HN Hi. destruct ev; cbn.
  - destruct (clickable length None i); [|exact Hi].
    rewrite state_update. destruct (mounted i); [|exact Hi].
    apply nextImage_in_range; assumption.
  - destruct (clickable length None i); [|exact Hi].
    rewrite state_update. destruct (mounted i); [|exact Hi].
    apply prevImage_in_range; assumption.
  - destruct (clickable length (Some index) i) eqn:Hc; [|exact Hi].
    apply clickable_idle in Hc as (_ & _ & _ & Hk).
    rewrite state_update. destruct (mounted i); [|exact Hi].
    apply dotClick_in_range; assumption.
  - unfold tick, in_range. rewrite fire_due_currentIndex. exact Hi.
  - destruct (mounted i); [|exact Hi].
    unfold unmount. cbn. rewrite state_run_cleanup. exact Hi.
Qed.

Lemma run_in_range (evs : list Event) (i : Instance) :
  0 < length -> in_range length (state i) ->
  in_range length (state (run length evs i)).
Proof.
  intros HN. revert i. induction evs as [|ev evs IH]; intros i Hi; [exact Hi|].
  cbn. apply IH. apply step_in_range; assumption.
Qed.

(** C8: for a non-empty image list of length N the invariant
    0 <= currentIndex < N holds in the initial state, is preserved by
    each handler (next, previous, and the dot of every index k with
    0 <= k < N), and therefore holds after every sequence of events of
    the mounted carousel. *)
Theorem currentIndex_invariant :
  0 < length ->
  in_range length initial
  /\ (forall s, in_range length s ->
        in_range length (nextImage length s)
        /\ in_range length (prevImage length s)
        /\ forall k, 0 <= k < length -> in_range length (dotClick k s))
  /\ (forall evs, in_range length (state (run length evs mount))).
Proof.
  intros HN. split; [|split].
  - unfold in_range. cbn. lia.
  - intros s Hs. split; [|split].
    + apply nextImage_in_range; assumption.
    + apply prevImage_in_range; assumption.
    + intros k Hk. apply dotClick_in_range; assumption.
  - intros evs. apply run_in_range; [exact HN|].
    unfold in_range. cbn. lia.
Qed.

(** C6: while the animation lock is held, the next arrow, the previous
    arrow and every indicator dot leave the carousel as it is: the
    handlers return the state unchanged (index, direction and lock), and
    the mounted component, its pending timeout included, is the same
    after the click. *)
Theorem locked_navigation_is_noop (i : Instance) (k : Z) :
  animation (state i) = true ->
  (nextImage length (state i) = state i
   /\ prevImage length (state i) = state i
   /\ dotClick k (state i) = state i)
  /\ (update (nextImage length) i = i
      /\ update (prevImage length) i = i
      /\ update (dotClick k) i = i)
  /\ (step length ClickNext i = i
      /\ step length ClickPrev i = i
      /\ step length (ClickDot k) i = i).
Proof.
  intros Ha.
  assert (Hn : nextImage length (state i) = state i)
    by (unfold nextImage; rewrite Ha; reflexivity).
  assert (Hp : prevImage length (state i) = state i)
    by (unfold prevImage; rewrite Ha; reflexivity).
  assert (Hd : dotClick k (state i) = state i)
    by (unfold dotClick; rewrite Ha; reflexivity).
  split; [auto|]. split.
  - repeat split; apply update_same; assumption.
  - cbn. repeat split.
    + destruct (clickable length None i); [apply update_same; exact Hn|reflexivity].
    + destruct (clickable length None i); [apply update_same; exact Hp|reflexivity].
    + destruct (clickable length (Some k) i); [apply update_same; exact Hd|reflexivity].
Qed.

(** The lock is released once the timeout's delay has passed. *)
Lemma ticks_release (k : nat) (i : Instance) (t : Timer) :
  mounted i = true -> animation (state i) = true ->
  timers i = [t] -> cleanup i = Some (tid t) -> due t = (now i + S k)%nat ->
  run length (repeat Tick (S k)) i =
    {| state := setAnimation false (state i); mounted := true;
       now := (now i + S k)%nat; timers := []; nextTimer := nextTimer i;
       cleanup := None |}.
Proof.
  revert i. induction k as [|k IH]; intros i Hm Ha Ht Hc Hd.
  - change (run length (repeat Tick 1) i) with (tick i).
    rewrite (tick_due i t) by (auto; lia).
    rewrite Nat.add_1_r. reflexivity.
  - change (run length (repeat Tick (S (S k))) i)
      with (run length (repeat Tick (S k)) (tick i)).
    rewrite (tick_not_due i t) by (auto; lia).
    rewrite (IH (advance_clock 1 i)); cbn; auto; try lia.
    f_equal. lia.
Qed.

(** A click on the next arrow of an idle carousel, followed by at least
    500 time units, moves one image forward and leaves it idle again. *)
Lemma next_round (d : nat) (i : Instance) :
  1 < length -> (500 <= d)%nat ->
  well_formed i = true -> mounted i = true -> animation (state i) = false ->
  in_range length (state i) ->
  let i' := run length (next_then_wait d) i in
  well_formed i' = true /\ mounted i' = true /\ animation (state i') = false
  /\ currentIndex (state i') = (currentIndex (state i) + 1) mod length.
Proof.
  intros HN Hd Hwf Hm Ha Hr.
  destruct (well_formed_idle i Hwf Hm Ha) as [Ht Hc].
  unfold next_then_wait.
  change (run length (ClickNext :: repeat Tick d) i)
    with (run length (repeat Tick d) (step length ClickNext i)).
  assert (Hclick : clickable length None i = true).
  { unfold clickable, controls_rendered. rewrite Hm, Ha. cbn.
    assert ((1 <? length) = true) as -> by (apply Z.ltb_lt; exact HN).
    reflexivity. }
  cbn [step]. rewrite Hclick.
  rewrite update_takes_lock; auto;
    [|rewrite nextImage_idle by exact Ha; reflexivity].
  rewrite nextImage_idle by exact Ha.
  replace d with (500 + (d - 500))%nat by lia.
  rewrite repeat_app, run_app.
  rewrite (ticks_release 499 _ {| tid := nextTimer i; due := (now i + 500)%nat |});
    cbn; auto.
  rewrite ticks_nothing_pending by reflexivity.
  cbn. repeat split.
  apply rem_next; [lia|exact Hr].
Qed.

Lemma next_rounds (ds : list nat) (i : Instance) :
  1 < length -> Forall (fun d => (500 <= d)%nat) ds ->
  well_formed i = true -> mounted i = true -> animation (state i) = false ->
  in_range length (state i) ->
  let i' := run length (flat_map next_then_wait ds) i in
  well_formed i' = true /\ mounted i' = true /\ animation (state i') = false
  /\ currentIndex (state i')
     = (currentIndex (state i) + Z.of_nat (List.length ds)) mod length.
Proof.
  intros HN Hds. revert i.
  induction Hds as [|d ds Hd Hds IH]; intros i Hwf Hm Ha Hr.
  - cbn. repeat split; auto. rewrite Z.add_0_r.
    symmetry. apply Z.mod_small. exact Hr.
  - cbn [flat_map]. rewrite run_app.
    destruct (next_round d i HN Hd Hwf Hm Ha Hr) as (Hwf1 & Hm1 & Ha1 & Hc1).
    assert (Hr1 : in_range length (state (run length (next_then_wait d) i))).
    { unfold in_range. rewrite Hc1. apply Z.mod_pos_bound. lia. }
    destruct (IH _ Hwf1 Hm1 Ha1 Hr1) as (Hwf2 & Hm2 & Ha2 & Hc2).
    cbn zeta. repeat split; auto.
    rewrite Hc2, Hc1. rewrite Zplus_mod_idemp_l. f_equal.
    cbn [List.length]. lia.
Qed.

(** C7: with N >= 2 images and an idle carousel at any index in range,
    N clicks on the next arrow, each followed by a wait of at least the
    500 time units of the animation lock, bring currentIndex back to
    where it started; and one click of either arrow moves currentIndex
    to (currentIndex + direction + N) mod N. *)
Theorem next_cycle (ds : list nat) (i : Instance) :
  2 <= length ->
  well_formed i = true -> mounted i = true -> animation (state i) = false ->
  in_range length (state i) ->
  Z.of_nat (List.length ds) = length ->
  Forall (fun d => (500 <= d)%nat) ds ->
  currentIndex (state (run length (flat_map next_then_wait ds) i))
    = currentIndex (state i)
  /\ currentIndex (nextImage length (state i))
     = (currentIndex (state i) + 1 + length) mod length
  /\ currentIndex (prevImage length (state i))
     = (currentIndex (state i) + -1 + length) mod length.
Proof.
  intros HN Hwf Hm Ha Hr Hlen Hds. split; [|split].
  - destruct (next_rounds ds i ltac:(lia) Hds Hwf Hm Ha Hr) as (_ & _ & _ & Hc).
    rewrite Hc, Hlen.
    replace (currentIndex (state i) + length)
      with (currentIndex (state i) + 1 * length) by lia.
    rewrite Z.mod_add by lia. apply Z.mod_small. exact Hr.
  - rewrite nextImage_idle by exact Ha. cbn.
    rewrite rem_next by (try exact Hr; lia).
    replace (currentIndex (state i) + 1 + length)
      with (currentIndex (state i) + 1 + 1 * length) by lia.
    rewrite Z.mod_add by lia. reflexivity.
  - rewrite prevImage_idle by exact Ha. cbn.
    rewrite Z.rem_mod_nonneg by (unfold in_range in Hr; lia).
    f_equal.
Qed.

(** C5 (amended): for N >= 2 images, an index in range and a candidate
    index i in range, the class of image i is a function of
    (currentIndex, i, N) alone: shown when i = currentIndex; otherwise
    placed off to the left when i = (currentIndex - 1 + N) mod N;
    otherwise placed off to the right when i = (currentIndex + 1) mod N;
    concealed otherwise.  The direction of the last move (and the lock)
    play no part. *)
Theorem placement_by_index (s : State) (i : Z) :
  2 <= length -> in_range length s -> 0 <= i < length ->
  placement length s i =
    (if i =? currentIndex s then Shown
     else if i =? (currentIndex s - 1 + length) mod length then OffLeft
     else if i =? (currentIndex s + 1) mod length then OffRight
     else Concealed)
  /\ (forall d a,
        placement length
          {| currentIndex := currentIndex s; direction := d; animation := a |} i
        = placement length s i)
  /\ (forall d a,
        className length
          {| currentIndex := currentIndex s; direction := d; animation := a |} i
        = className length s i).
Proof.
  intros HN Hs Hi. unfold in_range in Hs. split; [|split].
  - unfold placement.
    rewrite (Z.rem_mod_nonneg (currentIndex s - 1 + length)) by lia.
    rewrite (Z.rem_mod_nonneg (currentIndex s + 1)) by lia.
    reflexivity.
  - intros d a. reflexivity.
  - intros d a. reflexivity.
Qed.

(** After unmounting nothing is pending and no event changes anything
    but the clock. *)
Lemma disposed_step (ev : Event) (i : Instance) :
  mounted i = false -> timers i = [] ->
  let j := step length ev i in
  state j = state i /\ timers j = [] /\ mounted j = false
  /\ cleanup j = cleanup i.
Proof.
  intros Hm Ht. cbv zeta. destruct ev; cbn [step].
  - unfold clickable. rewrite Hm. cbn. auto.
  - unfold clickable. rewrite Hm. cbn. auto.
  - unfold clickable. rewrite Hm. cbn. auto.
  - rewrite tick_nothing_pending by exact Ht. cbn. auto.
  - rewrite Hm. auto.
Qed.

Lemma disposed_run (evs : list Event) (i : Instance) :
  mounted i = false -> timers i = [] ->
  let j := run length evs i in
  state j = state i /\ timers j = [] /\ mounted j = false.
Proof.
  revert i. induction evs as [|ev evs IH]; intros i Hm Ht; [cbn; auto|].
  destruct (disposed_step ev i Hm Ht) as (Hs & Ht' & Hm' & _).
  destruct (IH _ Hm' Ht') as (Hs2 & Ht2 & Hm2).
  change (run length (ev :: evs) i) with (run length evs (step length ev i)).
  cbn zeta. rewrite Hs2. auto.
Qed.

Lemma mount_well_formed : well_formed mount = true.
Proof. reflexivity. Qed.

(** Whatever happened before, unmounting leaves no timeout pending, and
    the state is never updated afterwards. *)
Lemma carousel_teardown (before after : list Event) :
  let i := run length before mount in
  mounted i = true ->
  timers (step length Unmount i) = []
  /\ state (run length after (step length Unmount i)) = state i.
Proof.
  intros i Hm.
  assert (Hwf : well_formed i = true)
    by (apply run_well_formed, mount_well_formed).
  destruct (unmount_clears i Hwf Hm) as (Ht & Hm' & Hs).
  cbn [step]. rewrite Hm. split; [exact Ht|].
  destruct (disposed_run after (unmount i) Hm' Ht) as (Hs' & _ & _).
  rewrite Hs'. exact Hs.
Qed.

End GalleryClaims.

(** The three-image carousel after a dot click on the last image and a
    full wait: idle at index 2. *)
Lemma currentIndex_invariant_witness :
  0 < 3
  /\ Gallery.in_range 3
       (Gallery.state
          (Gallery.run 3 [Gallery.ClickDot 2; Gallery.ClickNext] Gallery.mount)).
Proof.
  split; [lia|]. apply (currentIndex_invariant 3). lia.
Defined.

Lemma locked_navigation_is_noop_witness :
  let i := Gallery.step 3 Gallery.ClickNext Gallery.mount in
  Gallery.animation (Gallery.state i) = true
  /\ Gallery.step 3 Gallery.ClickPrev i = i
  /\ Gallery.nextImage 3 (Gallery.state i) = Gallery.state i.
Proof.
  cbv zeta. split; [reflexivity|].
  pose proof (locked_navigation_is_noop 3
                (Gallery.step 3 Gallery.ClickNext Gallery.mount) 0
                ltac:(reflexivity)) as H.
  split; [apply H|apply H].
Defined.

Lemma next_cycle_witness :
  let i := Gallery.run 3 (Gallery.ClickDot 2 :: repeat Gallery.Tick 500)
             Gallery.mount in
  Gallery.currentIndex (Gallery.state i) = 2
  /\ Gallery.currentIndex
       (Gallery.state
          (Gallery.run 3
             (flat_map Gallery.next_then_wait [500; 750; 500]%nat) i))
     = Gallery.currentIndex (Gallery.state i).
Proof.
  intros i.
  assert (Hwf : Gallery.well_formed i = true) by (vm_compute; reflexivity).
  assert (Hm : Gallery.mounted i = true) by (vm_compute; reflexivity).
  assert (Ha : Gallery.animation (Gallery.state i) = false)
    by (vm_compute; reflexivity).
  assert (Hc : Gallery.currentIndex (Gallery.state i) = 2)
    by (vm_compute; reflexivity).
  assert (Hr : Gallery.in_range 3 (Gallery.state i))
    by (unfold Gallery.in_range; rewrite Hc; lia).
  assert (Hds : Forall (fun d => (500 <= d)%nat) [500; 750; 500]%nat)
    by (repeat constructor; lia).
  split; [exact Hc|].
  exact (proj1 (next_cycle 3 [500; 750; 500]%nat i ltac:(lia) Hwf Hm Ha Hr
                  eq_refl Hds)).
Defined.

Lemma placement_by_index_witness :
  2 <= 3
  /\ Gallery.placement 3
       {| Gallery.currentIndex := 0; Gallery.direction := -1;
          Gallery.animation := false |} 1
     = Gallery.OffRight.
Proof.
  split; [lia|].
  pose proof (placement_by_index 3
                {| Gallery.currentIndex := 0; Gallery.direction := -1;
                   Gallery.animation := false |} 1
                ltac:(lia) ltac:(unfold Gallery.in_range; cbn; lia)
                ltac:(lia)) as [H _].
  rewrite H. reflexivity.
Defined.

(** C5, as the claim words it, fails on three images with the first one
    current: the second image gets the same class whether the last move
    went forward or backward, while the claim has it [incoming] after a
    forward move and [hidden] after a backward one.  The state after a
    backward move is the one reached by next, wait, previous, wait. *)
Lemma visual_state_counterexample :
  let forward :=
    {| Gallery.currentIndex := 0; Gallery.direction := 1;
       Gallery.animation := false |} in
  let backward :=
    Gallery.state
      (Gallery.run 3
         (Gallery.ClickNext :: repeat Gallery.Tick 500
          ++ Gallery.ClickPrev :: repeat Gallery.Tick 500) Gallery.mount) in
  backward = {| Gallery.currentIndex := 0; Gallery.direction := -1;
                Gallery.animation := false |}
  /\ Gallery.placement 3 backward 1 = Gallery.placement 3 forward 1
  /\ Gallery.spec_visual 3 0 1 (Gallery.direction forward) = Gallery.incoming
  /\ Gallery.spec_visual 3 0 1 (Gallery.direction backward) = Gallery.hidden
  /\ ~ (exists interpretation : Gallery.Placement -> Gallery.Visual,
          forall s, Gallery.in_range 3 s ->
            interpretation (Gallery.placement 3 s 1)
            = Gallery.spec_visual 3 (Gallery.currentIndex s) 1
                (Gallery.direction s)).
Proof.
  cbv zeta.
  split; [vm_compute; reflexivity|].
  split; [vm_compute; reflexivity|].
  split; [vm_compute; reflexivity|].
  split; [vm_compute; reflexivity|].
  intros [f H].
  pose proof (H {| Gallery.currentIndex := 0; Gallery.direction := 1;
                   Gallery.animation := false |}
              ltac:(unfold Gallery.in_range; cbn; lia)) as H1.
  pose proof (H {| Gallery.currentIndex := 0; Gallery.direction := -1;
                   Gallery.animation := false |}
              ltac:(unfold Gallery.in_range; cbn; lia)) as H2.
  vm_compute in H1, H2. congruence.
Qed.

(** * Properties of [URLSearchParams] *)

Section QueryFacts.

Import URLSearchParams.

Local Open Scope string_scope.

Lemma append_cons (x : ascii) (a b : string) :
  String x a ++ b = String x (a ++ b).
Proof. reflexivity. Qed.

Lemma lacks_app (c : ascii) (a b : string) :
  lacks c (a ++ b) = lacks c a && lacks c b.
Proof.
  induction a as [|x a IH]; [reflexivity|].
  rewrite append_cons. cbn [lacks]. rewrite IH. apply andb_assoc.
Qed.

(** The serializer emits none of [&], [=] and [?]. *)
Lemma encode_byte_lacks (b : ascii) :
  lacks "&" (encode_byte b) = true
  /\ lacks "=" (encode_byte b) = true
  /\ lacks "?" (encode_byte b) = true.
Proof.
  destruct b as [[] [] [] [] [] [] [] []]; vm_compute; auto.
Qed.

Lemma encode_lacks (s : string) :
  lacks "&" (encode s) = true
  /\ lacks "=" (encode s) = true
  /\ lacks "?" (encode s) = true.
Proof.
  induction s as [|b s (IH1 & IH2 & IH3)]; [cbn; auto|].
  cbn [encode]. rewrite !lacks_app, IH1, IH2, IH3.
  destruct (encode_byte_lacks b) as (-> & -> & ->). auto.
Qed.

Lemma plus_to_space_app (a b : string) :
  plus_to_space (a ++ b) = plus_to_space a ++ plus_to_space b.
Proof.
  induction a as [|x a IH]; [reflexivity|].
  rewrite append_cons. cbn [plus_to_space]. rewrite IH. reflexivity.
Qed.

Lemma percent_decode_plain (c : ascii) (r : string) :
  Ascii.eqb c "%" = false ->
  percent_decode (String c r) = String c (percent_decode r).
Proof. intros H. cbn [percent_decode]. rewrite H. reflexivity. Qed.

Lemma percent_decode_escape (a b : ascii) (x y : N) (r : string) :
  hex_val a = Some x -> hex_val b = Some y ->
  percent_decode (String "%" (String a (String b r)))
  = String (ascii_of_N (16 * x + y)) (percent_decode r).
Proof. intros Ha Hb. cbn [percent_decode]. cbn [Ascii.eqb Bool.eqb].
  rewrite Ha, Hb. reflexivity. Qed.

(** What the three kinds of byte look like to the decoder. *)
Lemma unreserved_plain (b : ascii) :
  unreserved b = true ->
  Ascii.eqb b "+" = false /\ Ascii.eqb b "%" = false.
Proof.
  destruct b as [[] [] [] [] [] [] [] []]; vm_compute; intros H;
    (discriminate H || (split; reflexivity)).
Qed.

Lemma space_code (b : ascii) : Z.eqb (JS.code b) 32 = true -> b = " "%char.
Proof.
  destruct b as [[] [] [] [] [] [] [] []]; vm_compute; intros H;
    (discriminate H || reflexivity).
Qed.

Lemma hex_digits_of_byte (b : ascii) :
  let n := N_of_ascii b in
  Ascii.eqb (hex_digit (n / 16)) "+" = false
  /\ Ascii.eqb (hex_digit (n mod 16)) "+" = false
  /\ hex_val (hex_digit (n / 16)) = Some (n / 16)%N
  /\ hex_val (hex_digit (n mod 16)) = Some (n mod 16)%N
  /\ ascii_of_N (16 * (n / 16) + n mod 16) = b.
Proof.
  destruct b as [[] [] [] [] [] [] [] []]; vm_compute; repeat split.
Qed.

(** Decoding undoes the encoding of one byte, whatever follows. *)
Lemma decode_encode_byte (b : ascii) (rest : string) :
  decode (encode_byte b ++ rest) = String b (decode rest).
Proof.
  unfold decode, encode_byte.
  destruct (unreserved b) eqn:U.
  - destruct (unreserved_plain b U) as [Hp Hq].
    rewrite append_cons. cbn [plus_to_space]. rewrite Hp.
    rewrite percent_decode_plain by exact Hq. reflexivity.
  - destruct (Z.eqb (JS.code b) 32) eqn:S.
    + rewrite (space_code b S). reflexivity.
    + destruct (hex_digits_of_byte b) as (H1 & H2 & H3 & H4 & H5).
      rewrite !append_cons. cbn [plus_to_space].
      rewrite H1, H2. cbn [Ascii.eqb Bool.eqb].
      rewrite (percent_decode_escape _ _ _ _ _ H3 H4), H5. reflexivity.
Qed.

Lemma decode_encode (s : string) : decode (encode s) = s.
Proof.
  induction s as [|b s IH]; [reflexivity|].
  cbn [encode]. rewrite decode_encode_byte, IH. reflexivity.
Qed.

Lemma split_lacks (a : string) :
  lacks "&" a = true -> split "&" a = [a].
Proof.
  induction a as [|x a IH]; [reflexivity|].
  cbn. intros H. apply andb_true_iff in H as [Hx Ha].
  apply negb_true_iff in Hx. rewrite Hx, (IH Ha). reflexivity.
Qed.

Lemma split_app (a rest : string) :
  lacks "&" a = true ->
  split "&" (a ++ String "&" rest) = a :: split "&" rest.
Proof.
  induction a as [|x a IH]; [reflexivity|].
  rewrite append_cons. cbn. intros H. apply andb_true_iff in H as [Hx Ha].
  apply negb_true_iff in Hx. rewrite Hx, (IH Ha). reflexivity.
Qed.

Lemma cut_app (k v : string) :
  lacks "=" k = true -> cut (k ++ String "=" v) = (k, v).
Proof.
  induction k as [|x k IH]; [reflexivity|].
  rewrite append_cons. cbn. intros H. apply andb_true_iff in H as [Hx Hk].
  apply negb_true_iff in Hx. rewrite Hx, (IH Hk). reflexivity.
Qed.

Lemma serialize_pair_lacks (p : string * string) :
  lacks "&" (serialize_pair p) = true /\ lacks "?" (serialize_pair p) = true.
Proof.
  unfold serialize_pair.
  destruct (encode_lacks (fst p)) as (H1 & _ & H3).
  destruct (encode_lacks (snd p)) as (H1' & _ & H3').
  rewrite !lacks_app, H1, H3. cbn. rewrite H1', H3'. auto.
Qed.

Lemma parse_piece_pair (p : string * string) :
  parse_piece (serialize_pair p) = [p].
Proof.
  destruct p as [k v]. unfold parse_piece, serialize_pair. cbn [fst snd].
  change (encode k ++ "=" ++ encode v) with (encode k ++ String "=" (encode v)).
  rewrite cut_app by apply encode_lacks.
  rewrite !decode_encode.
  destruct (encode k ++ String "=" (encode v)) eqn:E; [|reflexivity].
  destruct (encode k); discriminate.
Qed.

(** Parsing reads back what [toString] wrote. *)
Lemma parse_toString (q : t) : parse (toString q) = q.
Proof.
  induction q as [|p q IH]; [reflexivity|].
  destruct q as [|p' q].
  - cbn [toString]. unfold parse.
    rewrite split_lacks by apply serialize_pair_lacks.
    cbn [flat_map]. rewrite parse_piece_pair. reflexivity.
  - change (toString (p :: p' :: q))
      with (serialize_pair p ++ String "&" (toString (p' :: q))).
    unfold parse. rewrite split_app by apply serialize_pair_lacks.
    cbn [flat_map]. rewrite parse_piece_pair.
    unfold parse in IH. rewrite IH. reflexivity.
Qed.

Lemma toString_lacks_question (q : t) : lacks "?" (toString q) = true.
Proof.
  induction q as [|p q IH]; [reflexivity|].
  destruct q as [|p' q].
  - apply serialize_pair_lacks.
  - change (toString (p :: p' :: q))
      with (serialize_pair p ++ String "&" (toString (p' :: q))).
    rewrite lacks_app. cbn [lacks].
    destruct (serialize_pair_lacks p) as [_ ->]. rewrite IH. reflexivity.
Qed.

(** [new URLSearchParams(q.toString())] is a copy of [q]. *)
Lemma of_string_toString (q : t) : of_string (toString q) = q.
Proof.
  pose proof (toString_lacks_question q) as H.
  pose proof (parse_toString q) as P.
  unfold of_string.
  destruct (toString q) as [|c r]; [exact P|].
  destruct c as [[] [] [] [] [] [] [] []]; try exact P.
  cbn in H. discriminate H.
Qed.

Lemma get_set (name value : string) (q : t) :
  get name (set name value q) = Some value.
Proof.
  induction q as [|[k v] q IH]; cbn.
  - rewrite String.eqb_refl. reflexivity.
  - destruct (String.eqb k name) eqn:E; cbn; rewrite E; [reflexivity|exact IH].
Qed.

Lemma getAll_remove (name : string) (q : t) : getAll name (remove name q) = [].
Proof.
  induction q as [|[k v] q IH]; [reflexivity|].
  cbn. destruct (String.eqb k name) eqn:E; [exact IH|].
  cbn. rewrite E. exact IH.
Qed.

Lemma getAll_set (name value : string) (q : t) :
  getAll name (set name value q) = [value].
Proof.
  induction q as [|[k v] q IH]; cbn.
  - rewrite String.eqb_refl. reflexivity.
  - destruct (String.eqb k name) eqn:E; cbn; rewrite E.
    + rewrite getAll_remove. reflexivity.
    + exact IH.
Qed.

(** Apart from the pairs called [name], [set] keeps the query as it is. *)
Lemma remove_set (name value : string) (q : t) :
  remove name (set name value q) = remove name q.
Proof.
  induction q as [|[k v] q IH]; cbn.
  - rewrite String.eqb_refl. reflexivity.
  - destruct (String.eqb k name) eqn:E; cbn; rewrite E.
    + clear IH. induction q as [|[k' v'] q IH]; [reflexivity|].
      cbn. destruct (String.eqb k' name) eqn:E'; [exact IH|].
      cbn. rewrite E'. rewrite IH. reflexivity.
    + rewrite IH. reflexivity.
Qed.

Lemma get_remove_other (name other : string) (q : t) :
  String.eqb name other = false ->
  get other (remove name q) = get other q.
Proof.
  intros Hne. induction q as [|[k v] q IH]; [reflexivity|].
  cbn. destruct (String.eqb k name) eqn:E.
  - apply String.eqb_eq in E. subst k. rewrite Hne. exact IH.
  - cbn. rewrite IH. reflexivity.
Qed.

Lemma get_set_other (name other value : string) (q : t) :
  String.eqb name other = false ->
  get other (set name value q) = get other q.
Proof.
  intros Hne.
  rewrite <- (get_remove_other name other (set name value q) Hne).
  rewrite remove_set. apply get_remove_other. exact Hne.
Qed.

Lemma getAll_remove_other (name other : string) (q : t) :
  String.eqb name other = false ->
  getAll other (remove name q) = getAll other q.
Proof.
  intros Hne. induction q as [|[k v] q IH]; [reflexivity|].
  cbn. destruct (String.eqb k name) eqn:E.
  - apply String.eqb_eq in E. subst k. rewrite Hne. exact IH.
  - cbn. rewrite IH. reflexivity.
Qed.

End QueryFacts.

(** * The product grid controller: claims *)

Section GridClaims.

Import ProductGrid.

Context {Product : Type}.

Local Open Scope string_scope.

(** C1: when the grid is online and the product data source rejects,
    the run of [fetchProducts] ends with loading = false and error set
    to the (non-empty) failure message, while products, hasMore and
    isReset keep the values they had before the run, the offline cache
    is untouched, and the run itself completes normally. *)
Theorem fetch_rejected_keeps_products
    (getProducts : Request -> Outcome Product)
    (searchParams : URLSearchParams.t) (w : World) :
  getProducts (request searchParams) = Rejected ->
  let w' := after_fetch true getProducts searchParams w in
  loading (grid w') = false
  /\ error (grid w') = Some failure_message
  /\ failure_message <> ""
  /\ products (grid w') = products (grid w)
  /\ hasMore (grid w') = hasMore (grid w)
  /\ isReset (grid w') = isReset (grid w)
  /\ storage w' = storage w
  /\ fst (fetchProducts true getProducts searchParams w) = Normal tt.
Proof.
  intros H. unfold after_fetch, fetchProducts, try_catch_finally, bind,
    await_getProducts. cbn. rewrite H. cbn.
  repeat split. discriminate.
Qed.

(** C2: offline, with nothing cached under the key derived from the
    query, the run ends with products = [], hasMore = false,
    error = null and loading = false; it completes normally and leaves
    the cache as it was. *)
Theorem offline_cache_miss_is_empty
    (getProducts : Request -> Outcome Product)
    (searchParams : URLSearchParams.t) (w : World) :
  storage w !! cacheKey searchParams = None ->
  let w' := after_fetch false getProducts searchParams w in
  products (grid w') = []
  /\ hasMore (grid w') = false
  /\ error (grid w') = None
  /\ loading (grid w') = false
  /\ isReset (grid w') = isReset (grid w)
  /\ storage w' = storage w
  /\ fst (fetchProducts false getProducts searchParams w) = Normal tt.
Proof.
  intros H. unfold after_fetch, fetchProducts, try_catch_finally, bind,
    getFromLocalStorage. cbn. rewrite H. cbn.
  repeat split.
Qed.

(** C3: a run that does not fail (online with a resolved fetch, or
    offline, where the data is the cached value or the empty sequence)
    sets products to exactly the data, clears error and loading, and
    sets hasMore to true exactly when the data has 20 records. *)
Theorem fetch_success_sets_page
    (isOnline : bool) (getProducts : Request -> Outcome Product)
    (searchParams : URLSearchParams.t) (w : World) (data : list Product) :
  (if isOnline then getProducts (request searchParams) = Resolved data
   else or_nil (storage w !! cacheKey searchParams) = data) ->
  let w' := after_fetch isOnline getProducts searchParams w in
  products (grid w') = data
  /\ (hasMore (grid w') = true <-> List.length data = 20%nat)
  /\ error (grid w') = None
  /\ loading (grid w') = false
  /\ fst (fetchProducts isOnline getProducts searchParams w) = Normal tt.
Proof.
  intros H.
  assert (Hmore : (Z.of_nat (List.length data) =? limit)%Z = true
                  <-> List.length data = 20%nat).
  { unfold limit. rewrite Z.eqb_eq. lia. }
  unfold after_fetch, fetchProducts, try_catch_finally, bind,
    await_getProducts, getFromLocalStorage.
  destruct isOnline; cbn.
  - rewrite H. cbn. repeat split; apply Hmore.
  - rewrite H. cbn. repeat split; apply Hmore.
Qed.

(** The query handed to the router reads back as the old query with
    [page] set. *)
Lemma handlePageChange_query (searchParams : URLSearchParams.t)
    (newPage : JS.number) :
  handlePageChange searchParams newPage
  = "/?" ++ URLSearchParams.toString
              (URLSearchParams.set "page" (JS.NumberToString newPage)
                 searchParams).
Proof.
  unfold handlePageChange. rewrite of_string_toString. reflexivity.
Qed.

(** C9: [handlePageChange n] pushes a URL of the form [/?query] whose
    query parses to the old query with [page] rewritten to the printed
    [n]: [page] has that single value, the pairs of every other name are
    the old ones in the old order, and so category, search, sortBy and
    order read as before. *)
Theorem changePage_preserves_filters (searchParams : URLSearchParams.t)
    (newPage : JS.number) :
  exists query,
    handlePageChange searchParams newPage = "/?" ++ query
    /\ let after := URLSearchParams.of_string query in
       URLSearchParams.get "page" after = Some (JS.NumberToString newPage)
       /\ URLSearchParams.getAll "page" after = [JS.NumberToString newPage]
       /\ URLSearchParams.remove "page" after
          = URLSearchParams.remove "page" searchParams
       /\ category after = category searchParams
       /\ search after = search searchParams
       /\ sortBy after = sortBy searchParams
       /\ order after = order searchParams.
Proof.
  eexists. split; [apply handlePageChange_query|].
  cbv zeta. rewrite of_string_toString.
  split; [apply get_set|].
  split; [apply getAll_set|].
  split; [apply remove_set|].
  unfold category, search, sortBy, order.
  rewrite !get_set_other by reflexivity. repeat split.
Qed.

(** C10: the page number is 1 when the [page] parameter is absent, and
    when it coerces to NaN (not a numeric literal) or to a zero; every
    other number it coerces to is the page number as it is.  In
    particular the numeral of every positive integer gives that integer,
    and the same numeral with a minus sign gives the negative integer:
    nothing keeps the page positive. *)
Theorem currentPage_falsy_fallback (searchParams : URLSearchParams.t) :
  let raw := URLSearchParams.get "page" searchParams in
  (raw = None -> currentPage searchParams = JS.of_Z 1)
  /\ (JS.Number raw = JS.NaN \/ (exists s, JS.Number raw = S754_zero s) ->
      currentPage searchParams = JS.of_Z 1)
  /\ (JS.Number raw <> JS.NaN -> (forall s, JS.Number raw <> S754_zero s) ->
      currentPage searchParams = JS.Number raw)
  /\ (forall p : positive,
        raw = Some (JS.digits (Zpos p)) ->
        currentPage searchParams = JS.of_Z (Zpos p))
  /\ (forall p : positive,
        raw = Some ("-" ++ JS.digits (Zpos p)) ->
        currentPage searchParams = JS.of_Z (Zneg p)
        /\ JS.is_negative (currentPage searchParams) = true).
Proof.
  cbv zeta. unfold currentPage, JS.or_number. repeat apply conj.
  - intros ->. reflexivity.
  - intros [H|[s H]]; rewrite H; reflexivity.
  - intros Hn Hz.
    destruct (JS.Number (URLSearchParams.get "page" searchParams));
      try reflexivity.
    + exfalso. eapply Hz. reflexivity.
    + exfalso. apply Hn. reflexivity.
  - intros p ->. cbn [JS.Number].
    rewrite (proj1 (StringToNumber_numeral p)).
    rewrite (proj1 (of_Z_nonzero (Zpos p) ltac:(discriminate))).
    reflexivity.
  - intros p ->. cbn [JS.Number].
    rewrite (proj2 (StringToNumber_numeral p)).
    destruct (of_Z_nonzero (Zneg p) ltac:(discriminate)) as [Ht Hs].
    rewrite Ht. split; [reflexivity|exact Hs].
Qed.

(** ** After the grid is unmounted *)

Lemma fire_due_unmounted (fuel : nat) (i : Instance (Product := Product)) :
  mounted i = false ->
  world (fire_due fuel i) = world i /\ mounted (fire_due fuel i) = false.
Proof.
  revert i. induction fuel as [|fuel IH]; intros i Hm; [auto|].
  cbn [fire_due]. destruct (find _ (timers i)) as [t|]; [|auto].
  unfold setIsReset. cbn. rewrite Hm. apply (IH (remove_timer (tid t) i)).
  exact Hm.
Qed.

Lemma unmounted_step (searchParams : URLSearchParams.t) (ev : Event)
    (i : Instance (Product := Product)) :
  mounted i = false ->
  world (step searchParams ev i) = world i
  /\ mounted (step searchParams ev i) = false.
Proof.
  intros Hm. destruct ev; cbn [step].
  - unfold grid_rendered. rewrite Hm. auto.
  - unfold grid_rendered. rewrite Hm. auto.
  - unfold tick.
    match goal with
    | |- context [fire_due ?f ?j] =>
        destruct (fire_due_unmounted f j Hm) as [Hw Hm']
    end.
    rewrite Hw, Hm'. auto.
  - rewrite Hm. auto.
Qed.

Lemma unmounted_run (searchParams : URLSearchParams.t) (evs : list Event)
    (i : Instance (Product := Product)) :
  mounted i = false ->
  world (run searchParams evs i) = world i.
Proof.
  revert i. induction evs as [|ev evs IH]; intros i Hm; [reflexivity|].
  destruct (unmounted_step searchParams ev i Hm) as [Hw Hm'].
  change (run searchParams (ev :: evs) i)
    with (run searchParams evs (step searchParams ev i)).
  rewrite IH by exact Hm'. exact Hw.
Qed.

(** C4 (amended): unmounting the carousel clears its pending 500-unit
    timeout, so that nothing is pending afterwards and its state never
    changes again; unmounting the grid clears nothing, so that a pending
    100-unit reset timeout stays scheduled, but the update its callback
    makes after the unmount is dropped and the grid state never changes
    again either. *)
Theorem teardown_timers (length : Z) (before after : list Gallery.Event)
    (searchParams : URLSearchParams.t) (later : list Event)
    (g : Instance (Product := Product)) :
  (let i := Gallery.run length before Gallery.mount in
   Gallery.timers (Gallery.step length Gallery.Unmount i) = []
   /\ Gallery.state
        (Gallery.run length after (Gallery.step length Gallery.Unmount i))
      = Gallery.state i)
  /\ timers (unmount g) = timers g
  /\ world (run searchParams later (unmount g)) = world g.
Proof.
  split; [|split].
  - cbv zeta.
    destruct (Gallery.mounted (Gallery.run length before Gallery.mount)) eqn:Hm.
    + apply carousel_teardown. exact Hm.
    + cbn [Gallery.step]. rewrite Hm.
      assert (Ht : Gallery.timers (Gallery.run length before Gallery.mount) = []).
      { apply well_formed_unmounted; [|exact Hm].
        apply run_well_formed, mount_well_formed. }
      split; [exact Ht|].
      apply (disposed_run length after _ Hm Ht).
  - reflexivity.
  - rewrite unmounted_run by reflexivity. reflexivity.
Qed.

End GridClaims.

(** ** Instances *)

Local Open Scope string_scope.

Lemma fetch_rejected_keeps_products_witness :
  let getProducts := fun _ : ProductGrid.Request => ProductGrid.Rejected in
  let w := {| ProductGrid.grid :=
                {| ProductGrid.products := [3; 1; 4]%nat;
                   ProductGrid.error := None; ProductGrid.loading := false;
                   ProductGrid.isReset := false; ProductGrid.hasMore := false |};
              ProductGrid.storage := ∅ |} in
  let w' := ProductGrid.after_fetch true getProducts [("page", "2")] w in
  ProductGrid.products (ProductGrid.grid w') = [3; 1; 4]%nat
  /\ ProductGrid.error (ProductGrid.grid w') = Some ProductGrid.failure_message
  /\ ProductGrid.loading (ProductGrid.grid w') = false.
Proof.
  cbv zeta.
  pose proof (fetch_rejected_keeps_products
                (fun _ : ProductGrid.Request => ProductGrid.Rejected)
                [("page", "2")]
                {| ProductGrid.grid :=
                     {| ProductGrid.products := [3; 1; 4]%nat;
                        ProductGrid.error := None; ProductGrid.loading := false;
                        ProductGrid.isReset := false;
                        ProductGrid.hasMore := false |};
                   ProductGrid.storage := ∅ |}
                eq_refl) as (H1 & H2 & _ & H4 & _).
  split; [exact H4|]. split; [exact H2|exact H1].
Defined.

Lemma offline_cache_miss_is_empty_witness :
  let getProducts := fun _ : ProductGrid.Request => ProductGrid.Resolved [7%nat] in
  let w := {| ProductGrid.grid := ProductGrid.initial;
              ProductGrid.storage := <["products-1----" := [5%nat]]> (∅ : gmap string (list nat)) |} in
  let w' := ProductGrid.after_fetch false getProducts [("page", "2")] w in
  ProductGrid.cacheKey [("page", "2")] = "products-2----"
  /\ ProductGrid.products (ProductGrid.grid w') = []
  /\ ProductGrid.hasMore (ProductGrid.grid w') = false
  /\ ProductGrid.error (ProductGrid.grid w') = None.
Proof.
  cbv zeta. split; [vm_compute; reflexivity|].
  match goal with
  | |- context [ProductGrid.after_fetch false ?g ?sp ?w] =>
      assert (H0 : ProductGrid.storage w !! ProductGrid.cacheKey sp = None)
        by (vm_compute; reflexivity);
      pose proof (offline_cache_miss_is_empty g sp w H0) as (H1 & H2 & H3 & _)
  end.
  split; [exact H1|]. split; [exact H2|exact H3].
Defined.

(** The scenario of page 2: a full page of 20 records. *)
Lemma fetch_success_sets_page_witness :
  let data := repeat 7%nat 20 in
  let getProducts := fun _ : ProductGrid.Request => ProductGrid.Resolved data in
  let w := {| ProductGrid.grid := ProductGrid.initial; ProductGrid.storage := ∅ |} in
  let w' := ProductGrid.after_fetch true getProducts [("page", "2")] w in
  ProductGrid.products (ProductGrid.grid w') = data
  /\ ProductGrid.hasMore (ProductGrid.grid w') = true.
Proof.
  cbv zeta.
  pose proof (fetch_success_sets_page true
                (fun _ : ProductGrid.Request => ProductGrid.Resolved (repeat 7%nat 20))
                [("page", "2")]
                {| ProductGrid.grid := ProductGrid.initial;
                   ProductGrid.storage := ∅ |}
                (repeat 7%nat 20) eq_refl) as (H1 & H2 & _).
  split; [exact H1|]. apply H2. reflexivity.
Defined.

(** The same scenario with a last page of 7 records. *)
Example fetch_short_page :
  let data := repeat 7%nat 7 in
  let getProducts := fun _ : ProductGrid.Request => ProductGrid.Resolved data in
  let w := {| ProductGrid.grid := ProductGrid.initial; ProductGrid.storage := ∅ |} in
  let w' := ProductGrid.after_fetch true getProducts [("page", "2")] w in
  ProductGrid.products (ProductGrid.grid w') = data
  /\ ProductGrid.hasMore (ProductGrid.grid w') = false.
Proof. vm_compute. split; reflexivity. Qed.

Example changePage_5_keeps_category :
  ProductGrid.handlePageChange [("category", "shoes")] (JS.of_Z 5)
  = "/?category=shoes&page=5".
Proof. vm_compute. reflexivity. Qed.

Lemma currentPage_falsy_fallback_witness :
  URLSearchParams.get "page" [("category", "shoes"); ("page", "-3")]
  = Some ("-" ++ JS.digits 3)
  /\ ProductGrid.currentPage [("category", "shoes"); ("page", "-3")]
     = JS.of_Z (-3)
  /\ JS.NumberToString
       (ProductGrid.currentPage [("category", "shoes"); ("page", "-3")])
     = "-3".
Proof.
  assert (E : URLSearchParams.get "page" [("category", "shoes"); ("page", "-3")]
              = Some ("-" ++ JS.digits 3)) by (vm_compute; reflexivity).
  pose proof (currentPage_falsy_fallback [("category", "shoes"); ("page", "-3")])
    as (_ & _ & _ & _ & H).
  destruct (H 3%positive E) as [P _].
  split; [exact E|]. split; [exact P|].
  rewrite P. vm_compute. reflexivity.
Defined.

(** What [Number(...) || 1] makes of some values of [page]. *)
Example currentPage_examples :
  map (fun v => ProductGrid.currentPage [("page", v)])
    ["abc"; ""; " "; "0"; "-0"; "0.0"; "1e-400"; "0x0"; "12abc"]
  = repeat (JS.of_Z 1) 9
  /\ ProductGrid.currentPage [("category", "shoes")] = JS.of_Z 1
  /\ map (fun v => JS.NumberToString (ProductGrid.currentPage [("page", v)]))
       ["2"; " 7 "; "-3"; "2.5"; "-0.5"; "1e3"; "0x10"; "Infinity"; "-Infinity"]
     = ["2"; "7"; "-3"; "2.5"; "-0.5"; "1000"; "16"; "Infinity"; "-Infinity"].
Proof. vm_compute. repeat split. Qed.

(** C4, as the claim words it, fails for the grid: after a click on the
    reset button the unmount leaves the 100-unit timeout pending, and it
    is only gone once it has fired, 100 time units later. *)
Lemma teardown_counterexample :
  let searchParams := [("category", "shoes")] in
  let g := ProductGrid.mount (Product := nat) false
             (fun _ => ProductGrid.Rejected) searchParams ∅ in
  let disposed :=
    ProductGrid.run searchParams [ProductGrid.ClickReset; ProductGrid.Unmount] g in
  ProductGrid.mounted disposed = false
  /\ ProductGrid.timers disposed <> []
  /\ ProductGrid.timers disposed
     = [{| ProductGrid.tid := 0; ProductGrid.due := 100 |}]
  /\ ProductGrid.timers
       (ProductGrid.run searchParams (repeat ProductGrid.Tick 99) disposed)
     = [{| ProductGrid.tid := 0; ProductGrid.due := 100 |}]
  /\ ProductGrid.timers
       (ProductGrid.run searchParams (repeat ProductGrid.Tick 100) disposed)
     = [].
Proof. vm_compute. repeat split. discriminate. Qed.

(** * The carousel: further properties *)

Local Close Scope string_scope.

Section GalleryExtras.

Import Gallery GalleryRuns.

Variable length : Z.

Lemma run_cons (ev : Event) (evs : list Event) (i : Instance) :
  run length (ev :: evs) i = run length evs (step length ev i).
Proof. reflexivity. Qed.

Lemma clickable_locked (k : option Z) (i : Instance) :
  animation (state i) = true -> clickable length k i = false.
Proof.
  intros Ha. unfold clickable. rewrite Ha. cbn [negb].
  rewrite Bool.andb_false_r. reflexivity.
Qed.

Lemma clickable_navigation (i : Instance) :
  1 < length -> mounted i = true -> animation (state i) = false ->
  clickable length None i = true
  /\ forall k, 0 <= k < length -> clickable length (Some k) i = true.
Proof.
  intros HN Hm Ha. unfold clickable, controls_rendered. rewrite Hm, Ha.
  assert ((1 <? length) = true) as -> by (apply Z.ltb_lt; exact HN).
  split; [reflexivity|]. intros k Hk.
  assert ((0 <=? k) = true) as -> by (apply Z.leb_le; lia).
  assert ((k <? length) = true) as -> by (apply Z.ltb_lt; lia).
  reflexivity.
Qed.

(** While the lock is held and its timeout is not yet due, clicks and
    the passing of time change neither the state nor the timeout. *)
Lemma locked_run (evs : list Event) :
  forall (i : Instance) (t : Timer),
    mounted i = true -> animation (state i) = true ->
    timers i = [t] -> cleanup i = Some (tid t) ->
    stays_mounted evs = true ->
    (now i + elapsed evs < due t)%nat ->
    let j := run length evs i in
    state j = state i /\ mounted j = true /\ timers j = [t]
    /\ cleanup j = Some (tid t) /\ now j = (now i + elapsed evs)%nat.
Proof.
  induction evs as [|ev evs IH]; intros i t Hm Ha Ht Hc Hs He.
  - cbn. rewrite Nat.add_0_r. auto.
  - rewrite run_cons. destruct ev; cbn [stays_mounted elapsed] in Hs, He |- *;
      try discriminate Hs.
    + cbn [step]. rewrite clickable_locked by exact Ha.
      apply IH; assumption.
    + cbn [step]. rewrite clickable_locked by exact Ha.
      apply IH; assumption.
    + cbn [step]. rewrite clickable_locked by exact Ha.
      apply IH; assumption.
    + cbn [step]. rewrite (tick_not_due i t Ht) by lia.
      destruct (IH (advance_clock 1 i) t Hm Ha Ht Hc Hs) as (H1 & H2 & H3 & H4 & H5).
      { cbn. lia. }
      cbn zeta. rewrite H1, H5. cbn. repeat split; auto. lia.
Qed.

Lemma navigation_takes_lock (ev : Event) (i : Instance) :
  1 < length -> navigation length ev = true ->
  well_formed i = true -> mounted i = true -> animation (state i) = false ->
  let j := step length ev i in
  mounted j = true /\ animation (state j) = true
  /\ timers j = [{| tid := nextTimer i; due := (now i + 500)%nat |}]
  /\ cleanup j = Some (nextTimer i) /\ now j = now i
  /\ state j = match ev with
               | ClickNext => nextImage length (state i)
               | ClickPrev => prevImage length (state i)
               | ClickDot k => dotClick k (state i)
               | _ => state i
               end.
Proof.
  intros HN Hev Hwf Hm Ha.
  destruct (clickable_navigation i HN Hm Ha) as [Hc Hk].
  destruct ev; cbn [navigation] in Hev; try discriminate Hev; cbn [step].
  - rewrite Hc. rewrite update_takes_lock; auto;
      [|rewrite nextImage_idle by exact Ha; reflexivity].
    cbn. rewrite nextImage_idle by exact Ha. repeat split.
  - rewrite Hc. rewrite update_takes_lock; auto;
      [|rewrite prevImage_idle by exact Ha; reflexivity].
    cbn. rewrite prevImage_idle by exact Ha. repeat split.
  - rewrite Hk by lia. rewrite update_takes_lock; auto;
      [|rewrite dotClick_idle by exact Ha; reflexivity].
    cbn. rewrite dotClick_idle by exact Ha. repeat split.
Qed.

(** X1: after a click on an arrow or a dot of an idle carousel, whatever
    is clicked during the next 499 time units is ignored: the state is
    the one the first click produced and the lock is still held. *)
Theorem lock_blocks_rapid_input (click : Event) (evs : list Event)
    (i : Instance) :
  1 < length -> navigation length click = true ->
  well_formed i = true -> mounted i = true -> animation (state i) = false ->
  stays_mounted evs = true -> (elapsed evs < 500)%nat ->
  state (run length (click :: evs) i) = state (step length click i)
  /\ animation (state (run length (click :: evs) i)) = true.
Proof.
  intros HN Hev Hwf Hm Ha Hs He.
  destruct (navigation_takes_lock click i HN Hev Hwf Hm Ha)
    as (Hm' & Ha' & Ht' & Hc' & Hn' & _).
  rewrite run_cons.
  destruct (locked_run evs (step length click i) _ Hm' Ha' Ht' Hc' Hs)
    as (H1 & _).
  { cbn [due]. rewrite Hn'. lia. }
  rewrite H1. split; [reflexivity|exact Ha'].
Qed.

(** One round: an enabled click, then at least 500 time units. *)
Lemma round_state (ev : Event) (d : nat) (i : Instance) :
  1 < length -> navigation length ev = true -> (500 <= d)%nat ->
  well_formed i = true -> mounted i = true -> animation (state i) = false ->
  let j := run length (ev :: repeat Tick d) i in
  state j = setAnimation false (state (step length ev i))
  /\ well_formed j = true /\ mounted j = true /\ timers j = [].
Proof.
  intros HN Hev Hd Hwf Hm Ha.
  destruct (navigation_takes_lock ev i HN Hev Hwf Hm Ha)
    as (Hm' & Ha' & Ht' & Hc' & Hn' & _).
  rewrite run_cons.
  replace d with (500 + (d - 500))%nat by lia.
  rewrite repeat_app, run_app.
  rewrite (ticks_release length 499 _
             {| tid := nextTimer i; due := (now i + 500)%nat |});
    auto; [|cbn [due]; rewrite Hn'; reflexivity].
  rewrite ticks_nothing_pending by reflexivity.
  cbn. repeat split.
Qed.

Lemma prev_round (d : nat) (i : Instance) :
  1 < length -> (500 <= d)%nat ->
  well_formed i = true -> mounted i = true -> animation (state i) = false ->
  in_range length (state i) ->
  let i' := run length (prev_then_wait d) i in
  well_formed i' = true /\ mounted i' = true /\ animation (state i') = false
  /\ currentIndex (state i') = (currentIndex (state i) - 1) mod length.
Proof.
  intros HN Hd Hwf Hm Ha Hr.
  destruct (round_state ClickPrev d i HN eq_refl Hd Hwf Hm Ha)
    as (S1 & W1 & M1 & _).
  destruct (navigation_takes_lock ClickPrev i HN eq_refl Hwf Hm Ha)
    as (_ & _ & _ & _ & _ & E1).
  unfold prev_then_wait. cbv zeta.
  rewrite S1, E1, prevImage_idle by exact Ha.
  repeat split; auto. cbn. apply rem_prev; [lia|exact Hr].
Qed.

(** X3: on an idle carousel with the index in range, a click on the
    next arrow and a click on the previous arrow, each followed by at
    least 500 time units, cancel out in either order. *)
Theorem prev_undoes_next (d1 d2 : nat) (i : Instance) :
  1 < length -> (500 <= d1)%nat -> (500 <= d2)%nat ->
  well_formed i = true -> mounted i = true -> animation (state i) = false ->
  in_range length (state i) ->
  currentIndex
    (state (run length (next_then_wait d1 ++ prev_then_wait d2) i))
  = currentIndex (state i)
  /\ currentIndex
       (state (run length (prev_then_wait d1 ++ next_then_wait d2) i))
     = currentIndex (state i).
Proof.
  intros HN Hd1 Hd2 Hwf Hm Ha Hr.
  split; rewrite run_app.
  - destruct (next_round length d1 i HN Hd1 Hwf Hm Ha Hr)
      as (W1 & M1 & A1 & C1).
    assert (R1 : in_range length (state (run length (next_then_wait d1) i))).
    { unfold in_range. rewrite C1. apply Z.mod_pos_bound. lia. }
    destruct (prev_round d2 _ HN Hd2 W1 M1 A1 R1) as (_ & _ & _ & C2).
    rewrite C2, C1. rewrite Zminus_mod_idemp_l.
    replace (currentIndex (state i) + 1 - 1) with (currentIndex (state i))
      by lia.
    apply Z.mod_small. exact Hr.
  - destruct (prev_round d1 i HN Hd1 Hwf Hm Ha Hr)
      as (W1 & M1 & A1 & C1).
    assert (R1 : in_range length (state (run length (prev_then_wait d1) i))).
    { unfold in_range. rewrite C1. apply Z.mod_pos_bound. lia. }
    destruct (next_round length d2 _ HN Hd2 W1 M1 A1 R1) as (_ & _ & _ & C2).
    rewrite C2, C1. rewrite Zplus_mod_idemp_l.
    replace (currentIndex (state i) - 1 + 1) with (currentIndex (state i))
      by lia.
    apply Z.mod_small. exact Hr.
Qed.

(** X5: a click on the dot of any index k in range moves an idle
    carousel to k, also when k is the current index; the lock is taken in
    every case, and 500 time units later the carousel is idle at k. *)
Theorem dot_jumps_to_index (k : Z) (d : nat) (i : Instance) :
  1 < length -> 0 <= k < length -> (500 <= d)%nat ->
  well_formed i = true -> mounted i = true -> animation (state i) = false ->
  state (step length (ClickDot k) i)
  = {| currentIndex := k;
       direction := (if currentIndex (state i) <? k then 1 else -1);
       animation := true |}
  /\ state (run length (dot_then_wait k d) i)
     = {| currentIndex := k;
          direction := (if currentIndex (state i) <? k then 1 else -1);
          animation := false |}
  /\ timers (run length (dot_then_wait k d) i) = [].
Proof.
  intros HN Hk Hd Hwf Hm Ha.
  assert (Hev : navigation length (ClickDot k) = true).
  { cbn. assert ((0 <=? k) = true) as -> by (apply Z.leb_le; lia).
    apply Z.ltb_lt. lia. }
  destruct (navigation_takes_lock (ClickDot k) i HN Hev Hwf Hm Ha)
    as (_ & _ & _ & _ & _ & E).
  rewrite dotClick_idle in E by exact Ha.
  destruct (round_state (ClickDot k) d i HN Hev Hd Hwf Hm Ha)
    as (S1 & _ & _ & T1).
  fold (dot_then_wait k d) in S1, T1.
  split; [exact E|]. split; [|exact T1].
  rewrite S1, E. reflexivity.
Qed.

(** ** One image or none *)

Lemma static_step (ev : Event) (i : Instance) :
  length <= 1 ->
  state i = initial -> timers i = [] -> cleanup i = None ->
  let j := step length ev i in
  state j = initial /\ timers j = [] /\ cleanup j = None.
Proof.
  intros HN Hs Ht Hc.
  assert (Hno : forall k, clickable length k i = false).
  { intros k. unfold clickable, controls_rendered.
    assert ((1 <? length) = false) as -> by (apply Z.ltb_ge; lia).
    rewrite Bool.andb_false_r. reflexivity. }
  cbv zeta. destruct ev; cbn [step]; rewrite ?Hno; auto.
  - rewrite tick_nothing_pending by exact Ht. cbn. auto.
  - destruct (mounted i); auto.
    unfold unmount, run_cleanup. rewrite Hc. cbn. auto.
Qed.

(** X4: with at most one image no control is rendered, and whatever
    happens the carousel stays in its initial state (index 0, lock free)
    and never has a timeout pending. *)
Theorem single_image_is_static (evs : list Event) :
  length <= 1 ->
  state (run length evs mount) = initial
  /\ timers (run length evs mount) = [].
Proof.
  intros HN.
  assert (H : forall i, state i = initial -> timers i = [] -> cleanup i = None ->
              state (run length evs i) = initial
              /\ timers (run length evs i) = []).
  { induction evs as [|ev evs IH]; intros i Hs Ht Hc; [auto|].
    rewrite run_cons.
    destruct (static_step ev i HN Hs Ht Hc) as (Hs' & Ht' & Hc').
    apply IH; assumption. }
  apply H; reflexivity.
Qed.

(** ** The lock cannot stick *)

Lemma step_well_timed (ev : Event) (i : Instance) :
  well_formed i = true -> well_timed i = true ->
  well_timed (step length ev i) = true.
Proof.
  intros Hwf Hwt.
  assert (Hclick : forall k f,
            clickable length k i = true ->
            (forall s, animation s = false -> animation (f s) = true) ->
            well_timed (update f i) = true).
  { intros k f Hc Hf. apply clickable_idle in Hc as (Hm & Ha & _).
    rewrite update_takes_lock by auto. unfold well_timed. cbn.
    rewrite Nat.leb_refl. reflexivity. }
  destruct ev; cbn [step].
  - destruct (clickable length None i) eqn:Hc; [|exact Hwt].
    apply (Hclick None); [exact Hc|].
    intros s Hs. rewrite nextImage_idle by exact Hs. reflexivity.
  - destruct (clickable length None i) eqn:Hc; [|exact Hwt].
    apply (Hclick None); [exact Hc|].
    intros s Hs. rewrite prevImage_idle by exact Hs. reflexivity.
  - destruct (clickable length (Some index) i) eqn:Hc; [|exact Hwt].
    apply (Hclick (Some index)); [exact Hc|].
    intros s Hs. rewrite dotClick_idle by exact Hs. reflexivity.
  - destruct (mounted i) eqn:Hm.
    + destruct (animation (state i)) eqn:Ha.
      * destruct (well_formed_locked i Hwf Hm Ha) as (t & Ht & Hc & Hd).
        destruct (Nat.eq_dec (due t) (S (now i))) as [E|E].
        -- rewrite (tick_due i t Hm Ha Ht Hc E). reflexivity.
        -- rewrite (tick_not_due i t Ht) by lia.
           unfold well_timed in *. cbn. rewrite Ht in *. cbn in *.
           rewrite Bool.andb_true_r in *.
           apply Nat.leb_le in Hwt. apply Nat.leb_le. lia.
      * destruct (well_formed_idle i Hwf Hm Ha) as [Ht Hc].
        rewrite tick_nothing_pending by exact Ht.
        unfold well_timed. cbn. rewrite Ht. reflexivity.
    + pose proof (well_formed_unmounted i Hwf Hm) as Ht.
      rewrite tick_nothing_pending by exact Ht.
      unfold well_timed. cbn. rewrite Ht. reflexivity.
  - destruct (mounted i) eqn:Hm; [|exact Hwt].
    destruct (unmount_clears i Hwf Hm) as (Ht & _).
    unfold well_timed. rewrite Ht. reflexivity.
Qed.

Lemma run_well_timed (evs : list Event) (i : Instance) :
  well_formed i = true -> well_timed i = true ->
  well_timed (run length evs i) = true.
Proof.
  revert i. induction evs as [|ev evs IH]; intros i Hwf Hwt; [exact Hwt|].
  rewrite run_cons. apply IH.
  - apply step_well_formed. exact Hwf.
  - apply step_well_timed; assumption.
Qed.

(** X2: however the mounted carousel got where it is, 500 time units
    with no click leave it idle with nothing pending, on the image it
    was on: the lock cannot stay held. *)
Theorem lock_released_within_500 (evs : list Event) :
  let i := run length evs mount in
  mounted i = true ->
  let j := run length (repeat Tick 500) i in
  animation (state j) = false /\ timers j = []
  /\ currentIndex (state j) = currentIndex (state i)
  /\ direction (state j) = direction (state i).
Proof.
  intros i Hm.
  assert (Hwf : well_formed i = true)
    by (apply run_well_formed, mount_well_formed).
  assert (Hwt : well_timed i = true)
    by (apply run_well_timed; reflexivity).
  destruct (animation (state i)) eqn:Ha.
  - destruct (well_formed_locked i Hwf Hm Ha) as (t & Ht & Hc & Hd).
    unfold well_timed in Hwt. rewrite Ht in Hwt. cbn in Hwt.
    rewrite Bool.andb_true_r in Hwt. apply Nat.leb_le in Hwt.
    cbv zeta.
    replace 500%nat with (S (due t - now i - 1) + (500 - (due t - now i)))%nat
      by lia.
    rewrite repeat_app, run_app.
    rewrite (ticks_release length (due t - now i - 1) i t) by (auto; lia).
    rewrite ticks_nothing_pending by reflexivity.
    cbn. auto.
  - destruct (well_formed_idle i Hwf Hm Ha) as [Ht Hc].
    cbv zeta. rewrite ticks_nothing_pending by exact Ht.
    cbn. auto.
Qed.

(** ** Where the images sit *)

Lemma mod_prev (c : Z) :
  0 < length -> 0 <= c < length ->
  (c - 1 + length) mod length = (if c =? 0 then length - 1 else c - 1).
Proof.
  intros HN Hc. destruct (Z.eqb_spec c 0) as [->|Hne].
  - replace (0 - 1 + length) with (length - 1) by lia.
    apply Z.mod_small. lia.
  - replace (c - 1 + length) with (c - 1 + 1 * length) by lia.
    rewrite Z.mod_add by lia. apply Z.mod_small. lia.
Qed.

Lemma mod_next (c : Z) :
  0 < length -> 0 <= c < length ->
  (c + 1) mod length = (if c + 1 =? length then 0 else c + 1).
Proof.
  intros HN Hc. destruct (Z.eqb_spec (c + 1) length) as [E|Hne].
  - rewrite E. apply Z.mod_same. lia.
  - apply Z.mod_small. lia.
Qed.

(** X6: with the index in range, exactly the current image is shown.
    With three or more images exactly its predecessor (cyclically) sits
    off to the left and exactly its successor off to the right; with two
    images the other one always sits off to the left and none to the
    right. *)
Theorem placement_partition (s : State) (i : Z) :
  1 <= length -> in_range length s -> 0 <= i < length ->
  (placement length s i = Shown <-> i = currentIndex s)
  /\ (length = 2 -> i <> currentIndex s -> placement length s i = OffLeft)
  /\ (3 <= length ->
      (placement length s i = OffLeft
       <-> i = (currentIndex s - 1) mod length)
      /\ (placement length s i = OffRight
          <-> i = (currentIndex s + 1) mod length)
      /\ (currentIndex s - 1) mod length <> (currentIndex s + 1) mod length).
Proof.
  intros HN Hs Hi. unfold in_range in Hs. unfold placement.
  rewrite (Z.rem_mod_nonneg (currentIndex s - 1 + length)) by lia.
  rewrite (Z.rem_mod_nonneg (currentIndex s + 1)) by lia.
  rewrite mod_prev, mod_next by lia.
  assert (Hp : (currentIndex s - 1) mod length
               = (if currentIndex s =? 0 then length - 1
                  else currentIndex s - 1)).
  { rewrite <- mod_prev by lia.
    replace (currentIndex s - 1 + length)
      with (currentIndex s - 1 + 1 * length) by lia.
    rewrite Z.mod_add by lia. reflexivity. }
  rewrite Hp.
  destruct (Z.eqb_spec i (currentIndex s)) as [E|E];
  destruct (Z.eqb_spec (currentIndex s) 0) as [E0|E0];
  destruct (Z.eqb_spec (currentIndex s + 1) length) as [E1|E1];
  repeat match goal with
         | |- context [Z.eqb ?a ?b] => destruct (Z.eqb_spec a b)
         end;
  repeat split; intros; try discriminate; try congruence; try lia.
Qed.

End GalleryExtras.

(** * The product grid controller: further properties *)

Local Open Scope string_scope.

Section GridExtras.

Import ProductGrid.

Context {Product : Type}.

(** What a run does, by connectivity and by how the fetch settled. *)
Lemma after_fetch_cases (isOnline : bool)
    (getProducts : Request -> Outcome Product)
    (searchParams : URLSearchParams.t) (w : World) :
  fetchProducts isOnline getProducts searchParams w
  = (Normal tt,
     if isOnline then
       match getProducts (request searchParams) with
       | Resolved data =>
           {| grid := {| products := data; error := None; loading := false;
                         isReset := isReset (grid w);
                         hasMore := (Z.of_nat (List.length data) =? limit)%Z |};
              storage := <[cacheKey searchParams := data]> (storage w) |}
       | Rejected =>
           {| grid := {| products := products (grid w);
                         error := Some failure_message; loading := false;
                         isReset := isReset (grid w);
                         hasMore := hasMore (grid w) |};
              storage := storage w |}
       end
     else
       let data := or_nil (storage w !! cacheKey searchParams) in
       {| grid := {| products := data; error := None; loading := false;
                     isReset := isReset (grid w);
                     hasMore := (Z.of_nat (List.length data) =? limit)%Z |};
          storage := storage w |}).
Proof.
  unfold fetchProducts, try_catch_finally, bind, await_getProducts,
    getFromLocalStorage.
  destruct isOnline; cbn.
  - destruct (getProducts (request searchParams)); reflexivity.
  - reflexivity.
Qed.

(** X7: every run of [fetchProducts] completes without throwing, ends
    with loading = false and leaves isReset alone; its error is the
    failure message exactly when the grid is online and the fetch was
    rejected, and null in every other case. *)
Theorem fetch_always_settles (isOnline : bool)
    (getProducts : Request -> Outcome Product)
    (searchParams : URLSearchParams.t) (w : World) :
  let w' := after_fetch isOnline getProducts searchParams w in
  fst (fetchProducts isOnline getProducts searchParams w) = Normal tt
  /\ loading (grid w') = false
  /\ isReset (grid w') = isReset (grid w)
  /\ (error (grid w') = Some failure_message
      <-> isOnline = true /\ getProducts (request searchParams) = Rejected)
  /\ (error (grid w') = None
      <-> isOnline = false
          \/ exists data, getProducts (request searchParams) = Resolved data).
Proof.
  unfold after_fetch. rewrite after_fetch_cases. cbn [fst snd].
  destruct isOnline; [destruct (getProducts (request searchParams)) eqn:E|];
    cbn; repeat split; auto; try discriminate; try congruence;
    try (intros [? ?]; congruence); try (intros [?|[? ?]]; congruence);
    eauto.
Qed.

(** X9: a run never touches a cache entry other than the one under its
    own key, and it writes that one only online with a resolved fetch;
    offline and on a rejected fetch the cache is left as it was. *)
Theorem fetch_writes_own_key_only (isOnline : bool)
    (getProducts : Request -> Outcome Product)
    (searchParams : URLSearchParams.t) (w : World) :
  let w' := after_fetch isOnline getProducts searchParams w in
  (forall key, key <> cacheKey searchParams ->
     storage w' !! key = storage w !! key)
  /\ (isOnline = false -> storage w' = storage w)
  /\ (getProducts (request searchParams) = Rejected -> storage w' = storage w)
  /\ (forall data,
        isOnline = true ->
        getProducts (request searchParams) = Resolved data ->
        storage w' !! cacheKey searchParams = Some data).
Proof.
  unfold after_fetch. rewrite after_fetch_cases. cbn [snd].
  repeat split.
  - intros key Hk.
    destruct isOnline; [destruct (getProducts (request searchParams))|];
      cbn; try reflexivity.
    apply lookup_insert_ne. congruence.
  - intros ->. reflexivity.
  - intros ->. destruct isOnline; reflexivity.
  - intros data -> ->. cbn. apply lookup_insert_eq.
Qed.

(** X8: what an online run stored is what an offline run of any query
    with the same key shows, whatever the grid showed in between:
    products is the stored data, hasMore is computed from its length,
    error is null, and the cache is not changed by reading it. *)
Theorem cache_round_trip
    (getProducts getProducts' : Request -> Outcome Product)
    (searchParams searchParams' : URLSearchParams.t) (w : World)
    (data : list Product) (between : State Product) :
  getProducts (request searchParams) = Resolved data ->
  cacheKey searchParams' = cacheKey searchParams ->
  let w1 := after_fetch true getProducts searchParams w in
  let w2 := after_fetch false getProducts' searchParams'
              {| grid := between; storage := storage w1 |} in
  products (grid w2) = data
  /\ hasMore (grid w2) = (Z.of_nat (List.length data) =? 20)%Z
  /\ error (grid w2) = None
  /\ loading (grid w2) = false
  /\ storage w2 = storage w1.
Proof.
  intros H Hk. unfold after_fetch. rewrite !after_fetch_cases. cbn [snd].
  rewrite H. cbn. rewrite Hk, lookup_insert_eq. cbn. repeat split.
Qed.

(** ** The cache key *)

Lemma append_assoc (a b c : string) : (a ++ b) ++ c = a ++ (b ++ c).
Proof.
  induction a as [|x a IH]; [reflexivity|].
  rewrite !append_cons, IH. reflexivity.
Qed.

Lemma append_cancel (p a b : string) : p ++ a = p ++ b -> a = b.
Proof.
  induction p as [|c p IH]; [auto|].
  rewrite !append_cons. intros [= H]. auto.
Qed.

Lemma append_separator_longer (a b : string) (c : ascii) :
  a ++ String c b <> a.
Proof.
  induction a as [|x a IH]; [discriminate|].
  rewrite append_cons. intros [= H]. exact (IH H).
Qed.

(** Two strings cut at a separator they do not contain agree piecewise. *)
Lemma cut_unique (x : ascii) (a a' r r' : string) :
  URLSearchParams.lacks x a = true -> URLSearchParams.lacks x a' = true ->
  a ++ String x r = a' ++ String x r' -> a = a' /\ r = r'.
Proof.
  revert a'. induction a as [|y a IH]; intros a' Ha Ha' H.
  - destruct a' as [|y' a'].
    + cbn in H. injection H as ->. auto.
    + rewrite append_cons in H. cbn in H. injection H as <- _.
      cbn in Ha'. rewrite Ascii.eqb_refl in Ha'. discriminate.
  - destruct a' as [|y' a'].
    + rewrite append_cons in H. cbn in H. injection H as -> _.
      cbn in Ha. rewrite Ascii.eqb_refl in Ha. discriminate.
    + rewrite !append_cons in H. injection H as -> H.
      cbn in Ha, Ha'.
      apply andb_true_iff in Ha as [_ Ha].
      apply andb_true_iff in Ha' as [_ Ha'].
      destruct (IH a' Ha Ha' H) as [-> ->]. auto.
Qed.

Lemma cacheKey_shape (searchParams : URLSearchParams.t) :
  cacheKey searchParams
  = ("products-" ++ JS.NumberToString (currentPage searchParams))
    ++ String "-" (category searchParams
    ++ String "-" (search searchParams
    ++ String "-" (sortBy searchParams
    ++ String "-" (order searchParams)))).
Proof.
  unfold cacheKey.
  rewrite <- (append_assoc "products-"). reflexivity.
Qed.

(** X11: among queries for the same page whose category, search and
    sortBy contain no hyphen, the cache key determines the request: two
    such queries with the same key ask for the same products. *)
Theorem cacheKey_determines_request (q q' : URLSearchParams.t) :
  currentPage q = currentPage q' ->
  URLSearchParams.lacks "-" (category q) = true ->
  URLSearchParams.lacks "-" (search q) = true ->
  URLSearchParams.lacks "-" (sortBy q) = true ->
  URLSearchParams.lacks "-" (category q') = true ->
  URLSearchParams.lacks "-" (search q') = true ->
  URLSearchParams.lacks "-" (sortBy q') = true ->
  cacheKey q = cacheKey q' ->
  request q = request q'.
Proof.
  intros Hp Hc Hs Hb Hc' Hs' Hb' Hk.
  rewrite !cacheKey_shape, Hp in Hk. apply append_cancel in Hk.
  injection Hk as Hk.
  destruct (cut_unique _ _ _ _ _ Hc Hc' Hk) as [E1 Hk1].
  destruct (cut_unique _ _ _ _ _ Hs Hs' Hk1) as [E2 Hk2].
  destruct (cut_unique _ _ _ _ _ Hb Hb' Hk2) as [E3 E4].
  unfold request. rewrite Hp, E1, E2, E3, E4. reflexivity.
Qed.

(** X10: hyphens in the values make keys collide.  A category [a-b]
    with search [c] has the key of category [a] with search [b-c],
    though the two requests differ; so after an online run for the first
    query, an offline run for the second shows the products of the
    first. *)
Theorem cacheKey_collision
    (getProducts getProducts' : Request -> Outcome Product)
    (a b c : string) (rest : URLSearchParams.t) (w : World)
    (data : list Product) :
  let q := ("category", a ++ "-" ++ b) :: ("search", c) :: rest in
  let q' := ("category", a) :: ("search", b ++ "-" ++ c) :: rest in
  cacheKey q = cacheKey q'
  /\ request q <> request q'
  /\ (getProducts (request q) = Resolved data ->
      products
        (grid (after_fetch false getProducts' q'
                 (after_fetch true getProducts q w)))
      = data).
Proof.
  cbv zeta.
  assert (K : cacheKey (("category", a ++ "-" ++ b) :: ("search", c) :: rest)
              = cacheKey (("category", a) :: ("search", b ++ "-" ++ c) :: rest)).
  { unfold cacheKey, currentPage, category, search, sortBy, order. cbn.
    do 2 f_equal. rewrite !append_assoc. reflexivity. }
  split; [exact K|]. split.
  - unfold request, category. cbn. intros [= H _].
    exact (append_separator_longer a b "-" H).
  - intros H. unfold after_fetch. rewrite !after_fetch_cases. cbn [snd].
    rewrite H. cbn. rewrite <- K, lookup_insert_eq. reflexivity.
Qed.

(** ** The filter flag and the page parameter *)

Lemma nonempty_false (s : string) : nonempty s = false <-> s = "".
Proof. destruct s; cbn; split; congruence. Qed.

Lemma set_set (name v v' : string) (q : URLSearchParams.t) :
  URLSearchParams.set name v (URLSearchParams.set name v' q)
  = URLSearchParams.set name v q.
Proof.
  induction q as [|[k x] q IH]; cbn.
  - rewrite String.eqb_refl. reflexivity.
  - destruct (String.eqb k name) eqn:E; cbn; rewrite E.
    + f_equal. clear IH.
      induction q as [|[k' x'] q IH]; [reflexivity|].
      cbn. destruct (String.eqb k' name) eqn:E'; [exact IH|].
      cbn. rewrite E', IH. reflexivity.
    + rewrite IH. reflexivity.
Qed.

(** X12: the reset button shows exactly when the first category, search
    or sortBy value is non-empty; order and page play no part, so that
    setting either of them, and in particular a page change, leaves the
    flag as it is. *)
Theorem isFilterActive_ignores_page_and_order
    (searchParams : URLSearchParams.t) (value : string)
    (newPage : JS.number) :
  (isFilterActive searchParams = false
   <-> category searchParams = "" /\ search searchParams = ""
       /\ sortBy searchParams = "")
  /\ isFilterActive (URLSearchParams.set "order" value searchParams)
     = isFilterActive searchParams
  /\ isFilterActive (URLSearchParams.set "page" value searchParams)
     = isFilterActive searchParams
  /\ (exists query,
        handlePageChange searchParams newPage = "/?" ++ query
        /\ isFilterActive (URLSearchParams.of_string query)
           = isFilterActive searchParams).
Proof.
  assert (F : forall name v,
            String.eqb name "category" = false ->
            String.eqb name "search" = false ->
            String.eqb name "sortBy" = false ->
            isFilterActive (URLSearchParams.set name v searchParams)
            = isFilterActive searchParams).
  { intros name v H1 H2 H3. unfold isFilterActive, category, search, sortBy.
    rewrite !get_set_other by assumption. reflexivity. }
  split; [|split; [|split]].
  - unfold isFilterActive. rewrite !orb_false_iff, !nonempty_false. tauto.
  - apply F; reflexivity.
  - apply F; reflexivity.
  - eexists. split; [apply handlePageChange_query|].
    rewrite of_string_toString. apply F; reflexivity.
Qed.

(** X13: page changes do not pile up.  Changing the page from the query
    a first page change produced gives the URL that changing it directly
    would have given, with a single [page] pair. *)
Theorem page_change_last_wins (searchParams : URLSearchParams.t)
    (first second : JS.number) :
  exists query,
    handlePageChange searchParams first = "/?" ++ query
    /\ handlePageChange (URLSearchParams.of_string query) second
       = handlePageChange searchParams second
    /\ URLSearchParams.getAll "page"
         (URLSearchParams.of_string
            (URLSearchParams.toString
               (URLSearchParams.set "page" (JS.NumberToString second)
                  (URLSearchParams.of_string query))))
       = [JS.NumberToString second].
Proof.
  eexists. split; [apply handlePageChange_query|].
  rewrite !of_string_toString, !handlePageChange_query, set_set.
  split; [reflexivity|apply getAll_set].
Qed.

(** X19: the page number is never NaN and never zero, whatever the
    query holds. *)
Theorem currentPage_is_truthy (searchParams : URLSearchParams.t) :
  JS.truthy (currentPage searchParams) = true
  /\ currentPage searchParams <> JS.NaN
  /\ (forall s, currentPage searchParams <> S754_zero s).
Proof.
  assert (T : JS.truthy (currentPage searchParams) = true).
  { unfold currentPage, JS.or_number.
    destruct (JS.truthy (JS.Number _)) eqn:E; [exact E|].
    vm_compute. reflexivity. }
  split; [exact T|].
  destruct (currentPage searchParams); cbn in T; try discriminate T;
    split; try discriminate; intros; discriminate.
Qed.

End GridExtras.

(** ** The reset signal *)

Local Close Scope string_scope.

Section ResetExtras.

Import ProductGrid.

Context {Product : Type}.

Variable searchParams : URLSearchParams.t.







End ResetExtras.

(** ** Fetches that overlap *)

Section OverlapExtras.

Import ProductGrid.

Context {Product : Type}.

Lemma lookup_middle (l1 l2 : list URLSearchParams.t) (x : URLSearchParams.t) :
  (l1 ++ x :: l2) !! List.length l1 = Some x.
Proof. induction l1 as [|y l1 IH]; [reflexivity|exact IH]. Qed.

Lemma remove_middle (l1 l2 : list URLSearchParams.t) (x : URLSearchParams.t) :
  take (List.length l1) (l1 ++ x :: l2)
  ++ drop (S (List.length l1)) (l1 ++ x :: l2)
  = l1 ++ l2.
Proof.
  induction l1 as [|y l1 IH]; [cbn; rewrite drop_0; reflexivity|].
  cbn. f_equal. exact IH.
Qed.

(** The second half of a run that resolved, and of one that rejected. *)
Lemma resume_cases (searchParams : URLSearchParams.t)
    (outcome : Outcome Product) (w : World) :
  snd (GridFetch.resume searchParams outcome w)
  = match outcome with
    | Resolved data =>
        {| grid := {| products := data; error := None; loading := false;
                      isReset := isReset (grid w);
                      hasMore := (Z.of_nat (List.length data) =? limit)%Z |};
           storage := <[cacheKey searchParams := data]> (storage w) |}
    | Rejected =>
        {| grid := {| products := products (grid w);
                      error := Some failure_message; loading := false;
                      isReset := isReset (grid w);
                      hasMore := hasMore (grid w) |};
           storage := storage w |}
    end.
Proof. destruct outcome; reflexivity. Qed.

Lemma start_online (searchParams : URLSearchParams.t)
    (p : GridFetch.Page (Product := Product)) :
  GridFetch.mounted p = true ->
  GridFetch.start true searchParams p
  = {| GridFetch.world :=
         {| grid := {| products := products (grid (GridFetch.world p));
                       error := error (grid (GridFetch.world p));
                       loading := true;
                       isReset := isReset (grid (GridFetch.world p));
                       hasMore := hasMore (grid (GridFetch.world p)) |};
            storage := storage (GridFetch.world p) |};
       GridFetch.mounted := true;
       GridFetch.inflight := GridFetch.inflight p ++ [searchParams] |}.
Proof.
  intros Hm. unfold GridFetch.start, GridFetch.apply. cbn. rewrite Hm.
  reflexivity.
Qed.

Lemma start_offline (getProducts : Request -> Outcome Product)
    (searchParams : URLSearchParams.t)
    (p : GridFetch.Page (Product := Product)) :
  GridFetch.mounted p = true ->
  GridFetch.start false searchParams p
  = {| GridFetch.world :=
         after_fetch false getProducts searchParams (GridFetch.world p);
       GridFetch.mounted := true;
       GridFetch.inflight := GridFetch.inflight p |}.
Proof.
  intros Hm. unfold GridFetch.start, GridFetch.apply. rewrite Hm.
  unfold after_fetch. rewrite !after_fetch_cases. reflexivity.
Qed.

Lemma settle_at (l1 l2 : list URLSearchParams.t)
    (searchParams : URLSearchParams.t) (outcome : Outcome Product)
    (w : World) (m : bool) :
  GridFetch.settle (List.length l1) outcome
    {| GridFetch.world := w; GridFetch.mounted := m;
       GridFetch.inflight := l1 ++ searchParams :: l2 |}
  = {| GridFetch.world :=
         if m then snd (GridFetch.resume searchParams outcome w)
         else {| grid := grid w;
                 storage :=
                   storage (snd (GridFetch.resume searchParams outcome w)) |};
       GridFetch.mounted := m; GridFetch.inflight := l1 ++ l2 |}.
Proof.
  unfold GridFetch.settle. cbn [GridFetch.inflight].
  rewrite lookup_middle, remove_middle. reflexivity.
Qed.

(** X15: a fetch started online that settles before anything else
    happens leaves the grid and the cache exactly as one uninterrupted
    run of [fetchProducts] does, and nothing pending beyond what was
    pending before; offline the start alone is the whole run. *)
Theorem fetch_in_two_halves (getProducts : Request -> Outcome Product)
    (searchParams : URLSearchParams.t) (p : GridFetch.Page (Product := Product)) :
  GridFetch.mounted p = true ->
  let settled :=
    GridFetch.settle (List.length (GridFetch.inflight p))
      (getProducts (request searchParams))
      (GridFetch.start true searchParams p) in
  GridFetch.world settled
  = after_fetch true getProducts searchParams (GridFetch.world p)
  /\ GridFetch.inflight settled = GridFetch.inflight p
  /\ GridFetch.world (GridFetch.start false searchParams p)
     = after_fetch false getProducts searchParams (GridFetch.world p)
  /\ GridFetch.inflight (GridFetch.start false searchParams p)
     = GridFetch.inflight p.
Proof.
  intros Hm. cbv zeta. rewrite start_online by exact Hm.
  rewrite (settle_at (GridFetch.inflight p) []).
  cbn [GridFetch.world GridFetch.inflight]. rewrite app_nil_r.
  unfold after_fetch. rewrite !after_fetch_cases, resume_cases. cbn [snd].
  split; [destruct (getProducts (request searchParams)); reflexivity|].
  split; [reflexivity|].
  rewrite (start_offline getProducts) by exact Hm.
  unfold after_fetch. rewrite after_fetch_cases. split; reflexivity.
Qed.

(** X16: fetches are not cancelled.  When a fetch for query [a] is
    still pending as a fetch for query [b] starts, and the later one
    resolves first, the grid shows the products of [b] with loading
    already false although the fetch for [a] is pending; when that one
    resolves, its products replace those of [b], the later request, and
    are stored under the key of [a]. *)
Theorem overlapping_fetches_last_settled_wins
    (a b : URLSearchParams.t) (da db : list Product)
    (p : GridFetch.Page (Product := Product)) :
  GridFetch.mounted p = true ->
  let n := List.length (GridFetch.inflight p) in
  let started := GridFetch.start true b (GridFetch.start true a p) in
  let first := GridFetch.settle (S n) (Resolved db) started in
  let second := GridFetch.settle n (Resolved da) first in
  (products (grid (GridFetch.world first)) = db
   /\ loading (grid (GridFetch.world first)) = false
   /\ GridFetch.inflight first = GridFetch.inflight p ++ [a])
  /\ (products (grid (GridFetch.world second)) = da
      /\ hasMore (grid (GridFetch.world second))
         = (Z.of_nat (List.length da) =? 20)%Z
      /\ GridFetch.inflight second = GridFetch.inflight p
      /\ storage (GridFetch.world second) !! cacheKey a = Some da).
Proof.
  intros Hm. cbv zeta.
  rewrite (start_online a p Hm). rewrite start_online by reflexivity.
  cbn [GridFetch.world GridFetch.inflight grid storage products error
       isReset hasMore].
  replace (S (List.length (GridFetch.inflight p)))
    with (List.length (GridFetch.inflight p ++ [a]))
    by (rewrite length_app; cbn; lia).
  rewrite (settle_at (GridFetch.inflight p ++ [a]) [] b).
  rewrite app_nil_r, resume_cases.
  cbn [GridFetch.world GridFetch.inflight grid storage products loading].
  split; [repeat split|].
  rewrite (settle_at (GridFetch.inflight p) [] a).
  rewrite app_nil_r, resume_cases.
  cbn [GridFetch.world GridFetch.inflight grid storage products hasMore].
  repeat split. apply lookup_insert_eq.
Qed.

(** X17: a fetch that settles after the grid was unmounted changes no
    state; resolved, it still writes its data to the offline cache,
    rejected, it leaves the cache alone as well. *)
Theorem settle_after_unmount (n : nat) (searchParams : URLSearchParams.t)
    (data : list Product) (p : GridFetch.Page (Product := Product)) :
  GridFetch.inflight p !! n = Some searchParams ->
  let resolved := GridFetch.settle n (Resolved data) (GridFetch.unmount p) in
  let rejected := GridFetch.settle n Rejected (GridFetch.unmount p) in
  grid (GridFetch.world resolved) = grid (GridFetch.world p)
  /\ storage (GridFetch.world resolved)
     = <[cacheKey searchParams := data]> (storage (GridFetch.world p))
  /\ GridFetch.world rejected = GridFetch.world p.
Proof.
  intros H. cbv zeta. unfold GridFetch.settle, GridFetch.unmount.
  cbn [GridFetch.inflight]. rewrite H.
  unfold GridFetch.apply. cbn [GridFetch.world GridFetch.mounted].
  rewrite !resume_cases. cbn. repeat split.
  destruct (GridFetch.world p); reflexivity.
Qed.

(** ** The dependencies of the effect *)

Lemma number_eqb_eq (x y : JS.number) : JS.number_eqb x y = true <-> x = y.
Proof.
  destruct x, y; cbn; split; try discriminate; try reflexivity.
  - intros H. apply Bool.eqb_prop in H. congruence.
  - intros [= ->]. apply Bool.eqb_reflx.
  - intros H. apply Bool.eqb_prop in H. congruence.
  - intros [= ->]. apply Bool.eqb_reflx.
  - intros H. apply andb_true_iff in H as [H H3].
    apply andb_true_iff in H as [H1 H2].
    apply Bool.eqb_prop in H1. apply Pos.eqb_eq in H2. apply Z.eqb_eq in H3.
    congruence.
  - intros [= -> -> ->].
    rewrite Bool.eqb_reflx, Pos.eqb_refl, Z.eqb_refl. reflexivity.
Qed.

Lemma same_deps_request (before after : URLSearchParams.t) :
  GridFetch.same_deps before after = true <-> request before = request after.
Proof.
  unfold GridFetch.same_deps, request. split.
  - intros H. repeat (apply andb_true_iff in H as [H ?]).
    apply number_eqb_eq in H.
    repeat match goal with
           | E : String.eqb _ _ = true |- _ => apply String.eqb_eq in E
           end.
    congruence.
  - intros [= H1 H2 H3 H4 H5]. rewrite H1, H2, H3, H4, H5.
    rewrite !String.eqb_refl.
    assert (JS.number_eqb (currentPage after) (currentPage after) = true)
      as -> by (apply number_eqb_eq; reflexivity).
    reflexivity.
Qed.

(** X18: a later render starts a fetch exactly when the request derived
    from its query differs from the previous render's.  With the same
    request (the queries may still differ, in other parameters or in how
    the page is spelled) nothing is fetched, not even when connectivity
    changed in between, and the cache key is the same. *)
Theorem refetch_iff_request_changes (isOnline : bool)
    (before after : URLSearchParams.t)
    (p : GridFetch.Page (Product := Product)) :
  (request before = request after ->
   GridFetch.rerender isOnline before after p = p
   /\ cacheKey before = cacheKey after)
  /\ (request before <> request after ->
      GridFetch.rerender isOnline before after p
      = GridFetch.start isOnline after p).
Proof.
  unfold GridFetch.rerender. split.
  - intros H. pose proof H as D. apply same_deps_request in D. rewrite D.
    split; [reflexivity|].
    injection H as H1 H2 H3 H4 H5.
    unfold cacheKey. rewrite H1, H2, H3, H4, H5. reflexivity.
  - intros H. destruct (GridFetch.same_deps before after) eqn:D;
      [|reflexivity].
    apply same_deps_request in D. contradiction.
Qed.

End OverlapExtras.

(** ** What is on the page after a fetch *)

Section ViewExtras.

Import ProductGrid.

Context {Product : Type}.

(** X20: what the grid renders once a run of [fetchProducts] is over is
    never the spinner.  Online with a rejected fetch the render throws
    the failure message; in every other case the page is shown, with
    the "No products found." message exactly when the data is empty and
    the cards of the data otherwise, and with the pagination on its last
    page exactly when the data does not have 20 records. *)
Theorem view_after_fetch (fetchedOnline : bool)
    (getProducts : Request -> Outcome Product)
    (searchParams : URLSearchParams.t) (w : World)
    (isOnline newVersionAvailable : bool) :
  let s := grid (after_fetch fetchedOnline getProducts searchParams w) in
  let rendered := GridView.render isOnline newVersionAvailable searchParams s in
  rendered <> GridView.LoadingSpinner
  /\ (rendered = GridView.Throws failure_message
      <-> fetchedOnline = true
          /\ getProducts (request searchParams) = Rejected)
  /\ (forall data,
        (if fetchedOnline
         then getProducts (request searchParams) = Resolved data
         else or_nil (storage w !! cacheKey searchParams) = data) ->
        exists view,
          rendered = GridView.Shows view
          /\ GridView.body view
             = (match data with
                | [] => GridView.NoProductsFound
                | _ => GridView.ProductCards data
                end)
          /\ (GridView.pagination_isLastPage view = false
              <-> List.length data = 20%nat)
          /\ GridView.offline_notice view = negb isOnline
          /\ GridView.reset_button view = isFilterActive searchParams).
Proof.
  cbv zeta. unfold after_fetch. rewrite after_fetch_cases. cbn [snd].
  assert (Hlen : forall data : list Product,
            negb (Z.of_nat (List.length data) =? limit) = false
            <-> List.length data = 20%nat).
  { intros data. unfold limit. rewrite negb_false_iff, Z.eqb_eq. lia. }
  assert (Hbody : forall data : list Product,
            (if (Z.of_nat (List.length data) =? 0) && true
             then GridView.NoProductsFound
             else GridView.ProductCards data)
            = match data with
              | [] => GridView.NoProductsFound
              | _ => GridView.ProductCards data
              end).
  { intros [|x data]; reflexivity. }
  destruct fetchedOnline;
    [destruct (getProducts (request searchParams)) as [d|] eqn:E|];
    cbn; (split; [discriminate|]); split.
  - split; [discriminate|intros [_ H]; discriminate H].
  - intros data [= <-]. eexists. split; [reflexivity|]. cbn.
    rewrite Hbody. repeat split; apply Hlen.
  - split; [auto|reflexivity].
  - intros data H. discriminate H.
  - split; [discriminate|intros [H _]; discriminate H].
  - intros data <-. eexists. split; [reflexivity|]. cbn.
    rewrite Hbody. repeat split; apply Hlen.
Qed.

End ViewExtras.

(** ** Instances of the further properties *)

Lemma lock_blocks_rapid_input_witness :
  let evs := [Gallery.ClickNext; Gallery.Tick; Gallery.ClickDot 2;
              Gallery.Tick; Gallery.ClickPrev] in
  Gallery.state (Gallery.run 3 (Gallery.ClickNext :: evs) Gallery.mount)
  = Gallery.state (Gallery.step 3 Gallery.ClickNext Gallery.mount)
  /\ Gallery.currentIndex
       (Gallery.state (Gallery.step 3 Gallery.ClickNext Gallery.mount)) = 1.
Proof.
  cbv zeta. split; [|vm_compute; reflexivity].
  exact (proj1 (lock_blocks_rapid_input 3 Gallery.ClickNext
                  [Gallery.ClickNext; Gallery.Tick; Gallery.ClickDot 2;
                   Gallery.Tick; Gallery.ClickPrev] Gallery.mount
                  ltac:(lia) eq_refl eq_refl eq_refl eq_refl eq_refl
                  ltac:(cbn; lia))).
Defined.

Lemma lock_released_within_500_witness :
  let i := Gallery.run 3 [Gallery.ClickNext; Gallery.Tick; Gallery.Tick]
             Gallery.mount in
  Gallery.animation (Gallery.state i) = true
  /\ Gallery.animation
       (Gallery.state (Gallery.run 3 (repeat Gallery.Tick 500) i)) = false.
Proof.
  cbv zeta. split; [vm_compute; reflexivity|].
  exact (proj1 (lock_released_within_500 3
                  [Gallery.ClickNext; Gallery.Tick; Gallery.Tick]
                  ltac:(vm_compute; reflexivity))).
Defined.

Lemma prev_undoes_next_witness :
  Gallery.currentIndex
    (Gallery.state
       (Gallery.run 3
          (Gallery.next_then_wait 500 ++ GalleryRuns.prev_then_wait 600)
          Gallery.mount))
  = Gallery.currentIndex (Gallery.state Gallery.mount).
Proof.
  exact (proj1 (prev_undoes_next 3 500 600 Gallery.mount
                  ltac:(lia) ltac:(lia) ltac:(lia) eq_refl eq_refl eq_refl
                  ltac:(unfold Gallery.in_range; cbn; lia))).
Defined.

Lemma single_image_is_static_witness :
  Gallery.state
    (Gallery.run 1 [Gallery.ClickNext; Gallery.Tick; Gallery.ClickDot 0]
       Gallery.mount)
  = Gallery.initial.
Proof.
  exact (proj1 (single_image_is_static 1
                  [Gallery.ClickNext; Gallery.Tick; Gallery.ClickDot 0]
                  ltac:(lia))).
Defined.

Lemma dot_jumps_to_index_witness :
  Gallery.state
    (Gallery.run 4 (GalleryRuns.dot_then_wait 2 500) Gallery.mount)
  = {| Gallery.currentIndex := 2;
       Gallery.direction :=
         (if Gallery.currentIndex (Gallery.state Gallery.mount) <? 2
          then 1 else -1);
       Gallery.animation := false |}.
Proof.
  exact (proj1 (proj2 (dot_jumps_to_index 4 2 500 Gallery.mount
                         ltac:(lia) ltac:(lia) ltac:(lia)
                         eq_refl eq_refl eq_refl))).
Defined.

Lemma placement_partition_witness :
  Gallery.placement 2
    {| Gallery.currentIndex := 0; Gallery.direction := 1;
       Gallery.animation := false |} 1
  = Gallery.OffLeft.
Proof.
  exact (proj1 (proj2 (placement_partition 2
                         {| Gallery.currentIndex := 0; Gallery.direction := 1;
                            Gallery.animation := false |} 1
                         ltac:(lia) ltac:(unfold Gallery.in_range; cbn; lia)
                         ltac:(lia)))
           eq_refl ltac:(cbn; lia)).
Defined.

Lemma cache_round_trip_witness :
  let getProducts := fun _ : ProductGrid.Request =>
                       ProductGrid.Resolved [4; 2]%nat in
  let offline := fun _ : ProductGrid.Request => ProductGrid.Rejected in
  let q := [("category", "shoes"); ("page", "2")]%string in
  let w := {| ProductGrid.grid := ProductGrid.initial;
              ProductGrid.storage := (∅ : gmap string (list nat)) |} in
  let w1 := ProductGrid.after_fetch true getProducts q w in
  let w2 := ProductGrid.after_fetch false offline q
              {| ProductGrid.grid := ProductGrid.initial;
                 ProductGrid.storage := ProductGrid.storage w1 |} in
  ProductGrid.products (ProductGrid.grid w2) = [4; 2]%nat.
Proof.
  cbv zeta.
  exact (proj1 (cache_round_trip
                  (fun _ : ProductGrid.Request => ProductGrid.Resolved [4; 2]%nat)
                  (fun _ : ProductGrid.Request => ProductGrid.Rejected)
                  [("category", "shoes"); ("page", "2")]%string
                  [("category", "shoes"); ("page", "2")]%string
                  {| ProductGrid.grid := ProductGrid.initial;
                     ProductGrid.storage := (∅ : gmap string (list nat)) |}
                  [4; 2]%nat ProductGrid.initial eq_refl eq_refl)).
Defined.

Lemma cacheKey_determines_request_witness :
  ProductGrid.request [("category", "shoes")]%string
  = ProductGrid.request [("category", "shoes"); ("page", "abc");
                         ("category", "hats")]%string.
Proof.
  exact (cacheKey_determines_request
           [("category", "shoes")]%string
           [("category", "shoes"); ("page", "abc"); ("category", "hats")]%string
           ltac:(vm_compute; reflexivity) eq_refl eq_refl eq_refl
           eq_refl eq_refl eq_refl ltac:(vm_compute; reflexivity)).
Defined.


Lemma fetch_in_two_halves_witness :
  let getProducts := fun _ : ProductGrid.Request =>
                       ProductGrid.Resolved [7]%nat in
  let q := [("page", "3")]%string in
  let p := {| GridFetch.world :=
                {| ProductGrid.grid := ProductGrid.initial;
                   ProductGrid.storage := (∅ : gmap string (list nat)) |};
              GridFetch.mounted := true; GridFetch.inflight := [] |} in
  GridFetch.world
    (GridFetch.settle (List.length (GridFetch.inflight p))
       (getProducts (ProductGrid.request q)) (GridFetch.start true q p))
  = ProductGrid.after_fetch true getProducts q (GridFetch.world p).
Proof.
  cbv zeta.
  exact (proj1 (fetch_in_two_halves
                  (fun _ : ProductGrid.Request => ProductGrid.Resolved [7]%nat)
                  [("page", "3")]%string
                  {| GridFetch.world :=
                       {| ProductGrid.grid := ProductGrid.initial;
                          ProductGrid.storage := (∅ : gmap string (list nat)) |};
                     GridFetch.mounted := true; GridFetch.inflight := [] |}
                  eq_refl)).
Defined.

Lemma overlapping_fetches_last_settled_wins_witness :
  let a := [("page", "1")]%string in
  let b := [("page", "2")]%string in
  let p := {| GridFetch.world :=
                {| ProductGrid.grid := ProductGrid.initial;
                   ProductGrid.storage := (∅ : gmap string (list nat)) |};
              GridFetch.mounted := true; GridFetch.inflight := [] |} in
  let n := List.length (GridFetch.inflight p) in
  let started := GridFetch.start true b (GridFetch.start true a p) in
  let first := GridFetch.settle (S n) (ProductGrid.Resolved [22]%nat) started in
  let second := GridFetch.settle n (ProductGrid.Resolved [11]%nat) first in
  ProductGrid.products (ProductGrid.grid (GridFetch.world second)) = [11]%nat.
Proof.
  cbv zeta.
  exact (proj1 (proj2 (overlapping_fetches_last_settled_wins
                         [("page", "1")]%string [("page", "2")]%string
                         [11]%nat [22]%nat
                         {| GridFetch.world :=
                              {| ProductGrid.grid := ProductGrid.initial;
                                 ProductGrid.storage :=
                                   (∅ : gmap string (list nat)) |};
                            GridFetch.mounted := true;
                            GridFetch.inflight := [] |}
                         eq_refl))).
Defined.

Lemma settle_after_unmount_witness :
  let q := [("page", "2")]%string in
  let p := GridFetch.mount (Product := nat) true q ∅ in
  ProductGrid.grid
    (GridFetch.world
       (GridFetch.settle 0 (ProductGrid.Resolved [5]%nat) (GridFetch.unmount p)))
  = ProductGrid.grid (GridFetch.world p).
Proof.
  cbv zeta.
  exact (proj1 (settle_after_unmount 0 [("page", "2")]%string [5]%nat
                  (GridFetch.mount (Product := nat) true
                     [("page", "2")]%string ∅)
                  eq_refl)).
Defined.
